(** * cloudsync: providers, OID-path cache and change feeds

    A shallow embedding of the provider layer of cloudsync:
    - [cloudsync/tests/fixtures/mock_provider.py] (the in-memory provider),
    - [tests/test_events.py] (the older path-keyed mock),
    - [cloudsync/providers/gdrive.py] (the Google Drive provider and its
      path -> oid cache [_ids]),
    - [cloudsync/registry.py] (the provider registry).

    Python objects that are shared between containers live in an explicit
    heap keyed by their [id()]; Python dictionaries are insertion-ordered
    association lists with unique keys; exceptions are values of [Result].
    Time stamps ([time.time()]) are not modelled. *)

From Stdlib Require Import Strings.Byte Strings.Ascii.
From stdpp Require Import base decidable option list strings gmap pretty.

Set Default Proof Using "Type".
Local Open Scope string_scope.
Local Open Scope list_scope.

(** ** Exceptions and results *)

(** The exception classes the modelled code raises.  [TypeError],
    [AttributeError], [KeyError], [IndexError] and [RuntimeError] are
    Python's own. *)
Inductive PyError : Type :=
  | CloudFileNotFoundError
  | CloudFileExistsError
  | CloudTokenError
  | CloudDisconnectedError
  | CloudTemporaryError
  | KeyError
  | TypeError
  | AttributeError
  | IndexError
  | RuntimeError
  | ValueError.

Inductive Result (A : Type) : Type :=
  | Ok (a : A)
  | Raise (e : PyError).
Arguments Ok {A} a.
Arguments Raise {A} e.

#[global] Instance PyError_eq_dec : EqDecision PyError.
Proof. solve_decision. Defined.

Definition is_ok {A} (r : Result A) : bool :=
  match r with Ok _ => true | Raise _ => false end.

(** ** Generators

    What a generator does when it is run to its end: the values it yields,
    in order, and then either [StopIteration] ([None]) or the exception
    that ends it. *)
Record Trace (A : Type) : Type := mkTrace {
  yields : list A;
  failure : option PyError
}.
Arguments mkTrace {A} yields failure.
Arguments yields {A} t.
Arguments failure {A} t.

(** The body of a [for] loop that, for each item, yields a value
    ([Ok (Some x)]), yields nothing ([Ok None]) or raises. *)
Fixpoint trace_of {A} (items : list (Result (option A))) : Trace A :=
  match items with
  | [] => mkTrace [] None
  | Ok (Some x) :: r => let t := trace_of r in mkTrace (x :: yields t) (failure t)
  | Ok None :: r => trace_of r
  | Raise e :: _ => mkTrace [] (Some e)
  end.

(** [next(gen)] on a fresh generator: [Ok None] stands for
    [StopIteration]. *)
Definition next {A} (t : Trace A) : Result (option A) :=
  match yields t, failure t with
  | x :: _, _ => Ok (Some x)
  | [], Some e => Raise e
  | [], None => Ok None
  end.

(** [seq[i]] with Python's negative indices. *)
Definition py_index {A} (l : list A) (i : Z) : Result A :=
  let n := Z.of_nat (length l) in
  let j := if decide (i < 0)%Z then (n + i)%Z else i in
  if decide (0 <= j)%Z then
    match l !! Z.to_nat j with Some x => Ok x | None => Raise IndexError end
  else Raise IndexError.

(** Python bytes. *)
Abbreviation bytes := (list byte).

Definition b_hello : bytes := String.list_byte_of_string "hello".

(** ** Python dictionaries with [str] keys

    Insertion-ordered, keys unique: assigning to a present key keeps its
    position, a new key goes last; [del] removes the key. *)
Module Dict.
Section ops.
Context {V : Type}.

Fixpoint get (d : list (string * V)) (k : string) : option V :=
  match d with
  | [] => None
  | (k', v) :: r => if decide (k' = k) then Some v else get r k
  end.

Fixpoint set (d : list (string * V)) (k : string) (v : V) : list (string * V) :=
  match d with
  | [] => [(k, v)]
  | (k', v') :: r =>
      if decide (k' = k) then (k, v) :: r else (k', v') :: set r k v
  end.

Fixpoint del (d : list (string * V)) (k : string) : list (string * V) :=
  match d with
  | [] => []
  | (k', v') :: r => if decide (k' = k) then del r k else (k', v') :: del r k
  end.

Definition mem (d : list (string * V)) (k : string) : bool :=
  match get d k with Some _ => true | None => false end.

Definition keys (d : list (string * V)) : list string := d.*1.
Definition values (d : list (string * V)) : list V := d.*2.

Lemma get_set_eq d k v : get (set d k v) k = Some v.
Proof.
  induction d as [|[k' v'] r IH]; simpl.
  - by rewrite decide_True.
  - destruct (decide (k' = k)) as [->|Hne]; simpl.
    + by rewrite decide_True.
    + by rewrite decide_False.
Qed.

Lemma get_set_ne d k k' v : k <> k' -> get (set d k v) k' = get d k'.
Proof.
  intros Hne. induction d as [|[k0 v0] r IH]; simpl.
  - by rewrite decide_False.
  - destruct (decide (k0 = k)) as [->|Hk]; simpl.
    + by rewrite !decide_False.
    + destruct (decide (k0 = k')); [done | apply IH].
Qed.

Lemma get_del_ne d k k' : k <> k' -> get (del d k) k' = get d k'.
Proof.
  intros Hne. induction d as [|[k0 v0] r IH]; simpl; [done|].
  destruct (decide (k0 = k)) as [->|Hk]; simpl.
  - by rewrite decide_False.
  - destruct (decide (k0 = k')); [done | apply IH].
Qed.

Lemma get_None_not_in d k : get d k = None <-> k ∉ keys d.
Proof.
  unfold keys. induction d as [|[k0 v0] r IH]; simpl.
  - split; [intros _; apply not_elem_of_nil | done].
  - rewrite not_elem_of_cons. destruct (decide (k0 = k)) as [->|Hk].
    + split; [done | intros [? _]; done].
    + rewrite IH. split; [intros ?; split; [congruence | done] | intros [_ ?]; done].
Qed.

Lemma get_Some_in d k v : get d k = Some v -> (k, v) ∈ d.
Proof.
  induction d as [|[k0 v0] r IH]; simpl; [done|].
  destruct (decide (k0 = k)) as [->|Hk].
  - intros [= ->]. apply list_elem_of_here.
  - intros H. apply list_elem_of_further, IH, H.
Qed.

Lemma in_get_Some d k v : NoDup (keys d) -> (k, v) ∈ d -> get d k = Some v.
Proof.
  unfold keys. induction d as [|[k0 v0] r IH]; simpl.
  - intros _ H. by apply elem_of_nil in H.
  - rewrite NoDup_cons. intros [Hnin Hnd] Hin.
    apply elem_of_cons in Hin as [[= -> ->]|Hin].
    + by rewrite decide_True.
    + destruct (decide (k0 = k)) as [->|Hk]; [|by apply IH].
      exfalso. apply Hnin. apply list_elem_of_fmap.
      by exists (k, v).
Qed.

Lemma get_del_eq d k : get (del d k) k = None.
Proof.
  induction d as [|[k0 v0] r IH]; simpl; [done|].
  destruct (decide (k0 = k)) as [->|Hk]; simpl; [done|].
  by rewrite decide_False.
Qed.

Lemma keys_set_in d k v : mem d k = true -> keys (set d k v) = keys d.
Proof.
  unfold mem, keys. induction d as [|[k0 v0] r IH]; simpl; [done|].
  destruct (decide (k0 = k)) as [->|Hk]; simpl; [done|].
  intros H. f_equal. by apply IH.
Qed.

Lemma keys_set_new d k v : get d k = None -> keys (set d k v) = (keys d ++ [k])%list.
Proof.
  unfold keys. induction d as [|[k0 v0] r IH]; simpl; [done|].
  destruct (decide (k0 = k)) as [->|Hk]; simpl; [done|].
  intros H. f_equal. by apply IH.
Qed.

Lemma NoDup_keys_set d k v : NoDup (keys d) -> NoDup (keys (set d k v)).
Proof.
  intros Hnd. destruct (get d k) as [v0|] eqn:Hg.
  - rewrite keys_set_in; [done|]. unfold mem. by rewrite Hg.
  - rewrite keys_set_new by done.
    apply NoDup_app. split_and!; [done | | apply NoDup_singleton].
    intros x Hx Hx'. apply list_elem_of_singleton in Hx' as ->.
    by apply get_None_not_in in Hg.
Qed.

Lemma keys_del_sub d k x : x ∈ keys (del d k) -> x ∈ keys d.
Proof.
  unfold keys. induction d as [|[k0 v0] r IH]; simpl; [done|].
  destruct (decide (k0 = k)) as [->|Hk]; simpl.
  - intros H. by apply list_elem_of_further, IH.
  - rewrite !elem_of_cons. intros [->|H]; [by left | right; by apply IH].
Qed.

Lemma NoDup_keys_del d k : NoDup (keys d) -> NoDup (keys (del d k)).
Proof.
  unfold keys. induction d as [|[k0 v0] r IH]; simpl; [done|].
  rewrite NoDup_cons. intros [Hnin Hnd].
  destruct (decide (k0 = k)) as [->|Hk]; simpl; [by apply IH|].
  apply NoDup_cons. split; [|by apply IH].
  intros H. apply Hnin. by apply (keys_del_sub r k).
Qed.
End ops.
End Dict.

(** ** Paths *)

(** [rsplit s] cuts [s] at its last ["/"]: [Some (before, after)], or
    [None] when [s] has no separator. *)
Fixpoint rsplit (s : string) : option (string * string) :=
  match s with
  | EmptyString => None
  | String c s' =>
      match rsplit s' with
      | Some (b, a) => Some (String c b, a)
      | None => if decide (c = "/"%char) then Some (EmptyString, s') else None
      end
  end.

(** Modelled from the spec: [Provider.split] (cloudsync/provider.py is not
    among the sources).  It splits a path at its last separator into
    (parent, name); the root ["/"] and a name without separator are their
    own parent ("root oid is self-parent"), as
    [GDriveProvider.get_parent_id] expects with its test
    [parent == path]. *)
Definition split (path : string) : string * string :=
  match rsplit path with
  | None => (path, "")
  | Some (EmptyString, name) => ("/", name)
  | Some (parent, name) => (parent, name)
  end.

Definition dirname (path : string) : string := (split path).1.

Lemma rsplit_length s b a :
  rsplit s = Some (b, a) -> String.length s = S (String.length b + String.length a).
Proof.
  revert b a. induction s as [|c s IH]; intros b a; simpl; [done|].
  destruct (rsplit s) as [[b' a']|] eqn:Hr.
  - intros [= <- <-]. simpl. by rewrite (IH b' a').
  - destruct (decide (c = "/"%char)); [|done]. by intros [= <- <-].
Qed.

(** A parent other than the path itself is strictly shorter: the ascent
    through [split] is well founded. *)
Lemma split_shorter path :
  (split path).1 <> path ->
  String.length (split path).1 < String.length path.
Proof.
  unfold split. destruct (rsplit path) as [[b a]|] eqn:Hr; simpl; [|done].
  apply rsplit_length in Hr as Hlen.
  destruct b as [|c b]; simpl in *.
  - intros Hne. destruct a as [|c' a]; simpl in *; [|lia].
    exfalso. apply Hne. destruct path as [|c1 [|c2 p]]; simpl in *; try lia.
    destruct (decide (c1 = "/"%char)) as [->|]; simpl in Hr; done.
  - intros _. lia.
Qed.

(** [s.rstrip("/")]. *)
Fixpoint rstrip_sep (s : string) : string :=
  match s with
  | EmptyString => EmptyString
  | String c s' =>
      match rstrip_sep s' with
      | EmptyString => if decide (c = "/"%char) then EmptyString else String c EmptyString
      | r => String c r
      end
  end.

(** [s] without its prefix [p], when it starts with [p]. *)
Fixpoint strip_prefix (p s : string) : option string :=
  match p, s with
  | EmptyString, _ => Some s
  | String a p', String b s' => if decide (a = b) then strip_prefix p' s' else None
  | String _ _, EmptyString => None
  end.

(** Modelled from the spec: [Provider.is_subpath] (cloudsync/provider.py is
    not among the sources): "filter out events outside the configured
    sync-root subtree (by path ...)".  [is_subpath folder target strict]
    is the path of [target] relative to [folder] (Python: a non-empty
    string, hence true) when [target] lies under [folder], and [None]
    (Python: [False]) otherwise; a path is under itself unless [strict]. *)
Definition is_subpath (folder target : string) (strict : bool) : option string :=
  let folder_full := rstrip_sep folder in
  let target_full := rstrip_sep target in
  if decide (folder_full = target_full) then
    if strict then None else Some "/"
  else
    match strip_prefix folder_full target_full with
    | Some (String c rest) =>
        if decide (c = "/"%char) then Some (String c rest) else None
    | _ => None
    end.

(** Modelled from the spec: [Provider.replace_path] (cloudsync/provider.py
    is not among the sources): the path [path], which lies under
    [from_dir], moved under [to_dir]. *)
Definition replace_path (path from_dir to_dir : string) : string :=
  match is_subpath from_dir path false with
  | Some "/" | None => to_dir
  | Some rel => rstrip_sep to_dir +:+ rel
  end.

(** ** The normalized event model ([cloudsync.types], [cloudsync.event])

    Neither module is among the sources: the fields are those of the
    constructor calls [Event(type, oid, path, hash, exists, mtime)] and
    [OInfo(otype=, oid=, hash=, path=)] in the providers, without the time
    stamp. *)

Inductive OType : Type := FILE | DIRECTORY.

#[global] Instance OType_eq_dec : EqDecision OType.
Proof. solve_decision. Defined.

(** The first field of an [Event] is whatever Python value the provider
    puts there: a member of [OType], a raw string, or [None]. *)
Inductive TypeTag : Type :=
  | TagOType (t : OType)
  | TagStr (s : string)
  | TagNone.

Record Event : Type := mkEvent {
  ev_type : TypeTag;
  ev_oid : string;
  ev_path : option string;
  ev_hash : option bytes;
  ev_exists : bool
}.

Record OInfo : Type := mkOInfo {
  otype : OType;
  oid : string;
  hash : option bytes;
  path : string
}.

(** ** The in-memory provider (cloudsync/tests/fixtures/mock_provider.py) *)
Module Mock.

(** [MockFSObject.FILE = 'mock file'], [MockFSObject.DIR = 'mock dir']. *)
Inductive ObjType : Type := MOCK_FILE | MOCK_DIR.

#[global] Instance ObjType_eq_dec : EqDecision ObjType.
Proof. solve_decision. Defined.

Definition type_str (t : ObjType) : string :=
  match t with MOCK_FILE => "mock file" | MOCK_DIR => "mock dir" end.

(** [MockFSObject].  [contents] starts as [None]: the constructor's test
    [type == MockFSObject.FILE] compares the builtin [type] and never
    holds.  [oid] is [str(id(self))]. *)
Record MockFSObject : Type := mkObj {
  o_path : string;
  o_contents : option bytes;
  o_oid : string;
  o_exists : bool;
  o_type : ObjType
}.

Definition new_object (id : N) (path : string) (t : ObjType) : MockFSObject :=
  {| o_path := path; o_contents := None; o_oid := pretty id;
     o_exists := true; o_type := t |}.

(** The [otype] property. *)
Definition o_otype (o : MockFSObject) : OType :=
  match o_type o with MOCK_FILE => FILE | MOCK_DIR => DIRECTORY end.

Inductive Action : Type :=
  | ACTION_CREATE | ACTION_RENAME | ACTION_UPDATE | ACTION_DELETE.

(** [MockEvent]: the action and a [copy.copy] of the object as it was when
    the event was registered. *)
Record MockEvent : Type := mkMockEvent {
  _action : Action;
  _target_object : MockFSObject
}.

(** The provider.  [heap] maps the identity [id(obj)] of every live
    [MockFSObject] to its current fields; both dictionaries hold references
    to these shared objects. *)
Record MockProvider : Type := mkMock {
  _recycle_oid : bool;
  _sync_root : string;
  heap : gmap N MockFSObject;
  _fs_by_path : list (string * N);
  _fs_by_oid : list (string * N);
  _events : list MockEvent;
  _latest_event : Z;
  _cursor : Z
}.

Definition with_heap (m : MockProvider) (h : gmap N MockFSObject) : MockProvider :=
  mkMock (_recycle_oid m) (_sync_root m) h (_fs_by_path m) (_fs_by_oid m)
         (_events m) (_latest_event m) (_cursor m).

Definition with_dicts (m : MockProvider) (bp bo : list (string * N)) : MockProvider :=
  mkMock (_recycle_oid m) (_sync_root m) (heap m) bp bo
         (_events m) (_latest_event m) (_cursor m).

Definition with_cursor (m : MockProvider) (c : Z) : MockProvider :=
  mkMock (_recycle_oid m) (_sync_root m) (heap m) (_fs_by_path m) (_fs_by_oid m)
         (_events m) (_latest_event m) c.

(** A dictionary lookup followed by reading the object it refers to. *)
Definition deref (m : MockProvider) (r : option N) : option (N * MockFSObject) :=
  a ← r; o ← heap m !! a; Some (a, o).

Definition _get_by_oid (m : MockProvider) (oid : string) : option (N * MockFSObject) :=
  deref m (Dict.get (_fs_by_oid m) oid).

Definition _get_by_path (m : MockProvider) (path : string) : option (N * MockFSObject) :=
  deref m (Dict.get (_fs_by_path m) path).

(** Python's [file and file.exists] / [file is not None and file.exists]. *)
Definition live (f : option (N * MockFSObject)) : bool :=
  match f with Some (_, o) => o_exists o | None => false end.

(** Assignment to attributes of the object at address [a]. *)
Definition update_obj (m : MockProvider) (a : N)
    (f : MockFSObject -> MockFSObject) : MockProvider :=
  with_heap m (alter f a (heap m)).

Definition set_exists (b : bool) (o : MockFSObject) : MockFSObject :=
  mkObj (o_path o) (o_contents o) (o_oid o) b (o_type o).
Definition set_contents (c : bytes) (o : MockFSObject) : MockFSObject :=
  mkObj (o_path o) (Some c) (o_oid o) (o_exists o) (o_type o).
Definition set_path (p : string) (o : MockFSObject) : MockFSObject :=
  mkObj p (o_contents o) (o_oid o) (o_exists o) (o_type o).

Definition _register_event (act : Action) (target : MockFSObject)
    (m : MockProvider) : MockProvider :=
  let evs := _events m ++ [mkMockEvent act target] in
  mkMock (_recycle_oid m) (_sync_root m) (heap m) (_fs_by_path m) (_fs_by_oid m)
         evs (Z.of_nat (length evs) - 1) (_cursor m).

Definition _store_object (a : N) (fo : MockFSObject) (m : MockProvider) : MockProvider :=
  with_dicts m (Dict.set (_fs_by_path m) (o_path fo) a)
               (Dict.set (_fs_by_oid m) (o_oid fo) a).

(** [del d[k]] raises [KeyError] on a missing key. *)
Definition _unstore_object (fo : MockFSObject) (m : MockProvider)
    : MockProvider * Result unit :=
  if Dict.mem (_fs_by_path m) (o_path fo) then
    let m1 := with_dicts m (Dict.del (_fs_by_path m) (o_path fo)) (_fs_by_oid m) in
    if Dict.mem (_fs_by_oid m1) (o_oid fo) then
      (with_dicts m1 (_fs_by_path m1) (Dict.del (_fs_by_oid m1) (o_oid fo)), Ok ())
    else (m1, Raise KeyError)
  else (m, Raise KeyError).

Section WithHash.
(** [hashlib.md5(data).digest()]. *)
Variable md5 : bytes -> bytes.

(** [MockFSObject.hash]: [None] for a directory; [md5(None)] is a
    [TypeError]. *)
Definition o_hash (o : MockFSObject) : Result (option bytes) :=
  match o_type o with
  | MOCK_DIR => Ok None
  | MOCK_FILE =>
      match o_contents o with
      | Some c => Ok (Some (md5 c))
      | None => Raise TypeError
      end
  end.

Definition to_oinfo (o : MockFSObject) : Result OInfo :=
  match o_hash o with
  | Ok h => Ok (mkOInfo (o_otype o) (o_oid o) h (o_path o))
  | Raise e => Raise e
  end.

Definition info_path (m : MockProvider) (path : string) : Result (option OInfo) :=
  match _get_by_path m path with
  | Some (_, o) =>
      if o_exists o then
        match to_oinfo o with Ok i => Ok (Some i) | Raise e => Raise e end
      else Ok None
  | None => Ok None
  end.

Definition info_oid (m : MockProvider) (oid : string) : Result (option OInfo) :=
  match _get_by_oid m oid with
  | Some (_, o) =>
      if o_exists o then
        match to_oinfo o with Ok i => Ok (Some i) | Raise e => Raise e end
      else Ok None
  | None => Ok None
  end.

Definition exists_oid (m : MockProvider) (oid : string) : bool :=
  live (_get_by_oid m oid).

Definition exists_path (m : MockProvider) (path : string) : bool :=
  live (_get_by_path m path).

(** Modelled from the spec: [Provider._verify_parent_folder_exists]
    (cloudsync/provider.py is not among the sources): an operation on a
    path "whose parent does not exist ... fails with FileNotFoundError".
    The parent must be an existing directory; a path that is its own
    parent (the root) has nothing to verify, as in
    [GDriveProvider.get_parent_id], and as the constructor needs for its
    [mkdir(sync_root)] on the empty store. *)
Definition _verify_parent_folder_exists (m : MockProvider) (path : string)
    : Result unit :=
  let parent := dirname path in
  if decide (parent = path) then Ok ()
  else
    match _get_by_path m parent with
    | Some (_, o) =>
        if o_exists o && bool_decide (o_type o = MOCK_DIR) then Ok ()
        else Raise CloudFileNotFoundError
    | None => Raise CloudFileNotFoundError
    end.

(** [create(path, file_like)]; [new_id] is the [id()] CPython gives the
    [MockFSObject] constructed here (if one is constructed), and
    [file_like] the bytes that [file_like.read()] returns.  (A stream
    whose [read] raises is followed by [MockStore.create_reading].) *)
Definition create (new_id : N) (path : string) (file_like : bytes)
    (m : MockProvider) : MockProvider * Result OInfo :=
  let file := _get_by_path m path in
  if live file then (m, Raise CloudFileExistsError)
  else
    match _verify_parent_folder_exists m path with
    | Raise e => (m, Raise e)
    | Ok _ =>
        let '(m1, a) :=
          match file with
          | Some (a, _) =>
              if _recycle_oid m then (m, a)
              else
                let fo := new_object new_id path MOCK_FILE in
                (_store_object new_id fo (with_heap m (<[new_id := fo]> (heap m))), new_id)
          | None =>
              let fo := new_object new_id path MOCK_FILE in
              (_store_object new_id fo (with_heap m (<[new_id := fo]> (heap m))), new_id)
          end in
        let m2 := update_obj m1 a (fun o => set_exists true (set_contents file_like o)) in
        match heap m2 !! a with
        | Some o =>
            let m3 := _register_event ACTION_CREATE o m2 in
            (m3, to_oinfo o)
        | None => (m2, Raise AttributeError)
        end
    end.

(** [download(oid, file_like)]: the sink after [file_like.write]. *)
Definition download (oid : string) (file_like : bytes) (m : MockProvider)
    : Result bytes :=
  match _get_by_oid m oid with
  | Some (_, o) =>
      if o_exists o then
        match o_contents o with
        | Some c => Ok (file_like ++ c)%list
        | None => Raise TypeError
        end
      else Raise CloudFileNotFoundError
  | None => Raise CloudFileNotFoundError
  end.

Definition delete (oid : string) (m : MockProvider) : MockProvider * Result unit :=
  match _get_by_oid m oid with
  | Some (a, o) =>
      if o_exists o then
        let m1 := update_obj m a (set_exists false) in
        (_register_event ACTION_DELETE (set_exists false o) m1, Ok ())
      else (m, Ok ())
  | None => (m, Ok ())
  end.

Definition mkdir (new_id : N) (path : string) (m : MockProvider)
    : MockProvider * Result string :=
  match _verify_parent_folder_exists m path with
  | Raise e => (m, Raise e)
  | Ok _ =>
      let file := _get_by_path m path in
      match file with
      | Some (_, o) =>
          if o_exists o then
            match o_type o with
            | MOCK_FILE => (m, Raise CloudFileExistsError)
            | MOCK_DIR => (m, Ok (o_oid o))
            end
          else
            let fo := new_object new_id path MOCK_DIR in
            let m1 := _store_object new_id fo (with_heap m (<[new_id := fo]> (heap m))) in
            (_register_event ACTION_CREATE fo m1, Ok (o_oid fo))
      | None =>
          let fo := new_object new_id path MOCK_DIR in
          let m1 := _store_object new_id fo (with_heap m (<[new_id := fo]> (heap m))) in
          (_register_event ACTION_CREATE fo m1, Ok (o_oid fo))
      end
  end.

(** [_translate_event]: [_type_map] sends both mock types to a member
    of [OType], so the [assert] holds. *)
Definition _translate_event (pe : MockEvent) : Event :=
  let o := _target_object pe in
  mkEvent (TagOType (o_otype o)) (o_oid o) None None (negb (negb (o_exists o))).

(** One [next()] on the generator [events()]: the loop test, the cursor
    increment and the [yield]. *)
Definition events_next (m : MockProvider) : MockProvider * Result (option Event) :=
  if decide (_cursor m < _latest_event m)%Z then
    let m1 := with_cursor m (_cursor m + 1) in
    match py_index (_events m1) (_cursor m1) with
    | Ok pe => (m1, Ok (Some (_translate_event pe)))
    | Raise e => (m1, Raise e)
    end
  else (m, Ok None).

(** A consumer that asks the generator for at most [n] events and then
    drops it. *)
Fixpoint events_take (n : nat) (m : MockProvider) : MockProvider * list Event :=
  match n with
  | O => (m, [])
  | S n' =>
      match events_next m with
      | (m1, Ok (Some e)) =>
          let '(m2, es) := events_take n' m1 in (m2, e :: es)
      | (m1, _) => (m1, [])
      end
  end.

(** Events the feed still holds beyond the cursor. *)
Definition pending (m : MockProvider) : nat :=
  Z.to_nat (_latest_event m - _cursor m).

(** [list(self.events())]. *)
Definition events_all (m : MockProvider) : MockProvider * list Event :=
  events_take (pending m) m.

Definition objects (m : MockProvider) : list (option (N * MockFSObject)) :=
  (fun a => deref m (Some a)) <$> Dict.values (_fs_by_oid m).

(** [walk()]: the [Event] is built from [obj.type] and [obj.exists]. *)
Definition walk_item (m : MockProvider) (r : option (N * MockFSObject))
    : Result (option Event) :=
  match r with
  | None => Raise AttributeError
  | Some (_, obj) =>
      match is_subpath (_sync_root m) (o_path obj) true with
      | Some _ =>
          match o_hash obj with
          | Ok h => Ok (Some (mkEvent (TagStr (type_str (o_type obj))) (o_oid obj)
                                      (Some (o_path obj)) h (o_exists obj)))
          | Raise e => Raise e
          end
      | None => Ok None
      end
  end.

Definition walk (m : MockProvider) : Trace Event :=
  trace_of (walk_item m <$> objects m).

(** [relative.lstrip("/")] and ["/" not in relative]. *)
Fixpoint lstrip_sep (s : string) : string :=
  match s with
  | String c s' => if decide (c = "/"%char) then lstrip_sep s' else s
  | EmptyString => EmptyString
  end.

Fixpoint has_sep (s : string) : bool :=
  match s with
  | String c s' => bool_decide (c = "/"%char) || has_sep s'
  | EmptyString => false
  end.

Definition listdir_item (folder_path : string) (r : option (N * MockFSObject))
    : Result (option (OInfo * string)) :=
  match r with
  | None => Raise AttributeError
  | Some (_, obj) =>
      if o_exists obj then
        match is_subpath folder_path (o_path obj) true with
        | Some relative =>
            let relative := lstrip_sep relative in
            if has_sep relative then Ok None
            else
              match to_oinfo obj with
              | Ok i => Ok (Some (i, relative))
              | Raise e => Raise e
              end
        | None => Ok None
        end
      else Ok None
  end.

Definition listdir (m : MockProvider) (oid : string) : Trace (OInfo * string) :=
  match _get_by_oid m oid with
  | Some (_, folder_obj) =>
      if o_exists folder_obj && bool_decide (o_type folder_obj = MOCK_DIR) then
        trace_of (listdir_item (o_path folder_obj) <$> objects m)
      else mkTrace [] (Some CloudFileNotFoundError)
  | None => mkTrace [] (Some CloudFileNotFoundError)
  end.

(** [_rename_single_object]; [a] is the object passed in. *)
Definition _rename_single_object (a : N) (destination_path : string)
    (m : MockProvider) : MockProvider * Result unit :=
  match heap m !! a with
  | None => (m, Raise AttributeError)
  | Some source_object =>
      match _unstore_object source_object m with
      | (m1, Raise e) => (m1, Raise e)
      | (m1, Ok _) =>
          let m2 := update_obj m1 a (set_path destination_path) in
          let moved := set_path destination_path source_object in
          let m3 := _store_object a moved m2 in
          (_register_event ACTION_RENAME moved m3, Ok ())
      end
  end.

(** The loop of the directory branch of [rename], over the objects that
    [_fs_by_oid] holds when the loop starts; the value tells whether an
    object was renamed.  The source iterates [_fs_by_oid.values()]
    while [_rename_single_object] deletes and re-inserts the key of each
    object it renames: the re-inserted entries are appended to the
    dictionary, the iterator meets them after the entries it started
    with, and CPython then raises [RuntimeError] (dictionary keys
    changed during iteration); [rename] below raises it.  A rehash of
    the dictionary in the middle of the loop is not modelled. *)
Fixpoint rename_children (addrs : list N) (old_path new_path : string)
    (m : MockProvider) : MockProvider * Result bool :=
  match addrs with
  | [] => (m, Ok false)
  | a :: rest =>
      match heap m !! a with
      | None => (m, Raise AttributeError)
      | Some obj =>
          match is_subpath old_path (o_path obj) false with
          | Some _ =>
              match _rename_single_object a
                      (replace_path (o_path obj) old_path new_path) m with
              | (m1, Ok _) =>
                  match rename_children rest old_path new_path m1 with
                  | (m2, Ok _) => (m2, Ok true)
                  | (m2, Raise e) => (m2, Raise e)
                  end
              | (m1, Raise e) => (m1, Raise e)
              end
          | None => rename_children rest old_path new_path m
          end
      end
  end.

Definition rename (oid new_path : string) (m : MockProvider)
    : MockProvider * Result unit :=
  match _get_by_oid m oid with
  | None => (m, Raise CloudFileNotFoundError)
  | Some (a, object_to_rename) =>
      if negb (o_exists object_to_rename) then (m, Raise CloudFileNotFoundError)
      else
        let possible_conflict := _get_by_path m new_path in
        match _verify_parent_folder_exists m new_path with
        | Raise e => (m, Raise e)
        | Ok _ =>
            let checked : Result MockProvider :=
              match possible_conflict with
              | Some (_, c) =>
                  if o_exists c then
                    if negb (bool_decide (o_type c = o_type object_to_rename))
                    then Raise CloudFileExistsError
                    else
                      match o_type c with
                      | MOCK_DIR =>
                          match next (listdir m (o_oid c)) with
                          | Ok (Some _) => Raise CloudFileExistsError
                          | Ok None => Ok (delete (o_oid c) m).1
                          | Raise e => Raise e
                          end
                      | MOCK_FILE => Ok (delete (o_oid c) m).1
                      end
                  else Ok m
              | None => Ok m
              end in
            match checked with
            | Raise e => (m, Raise e)
            | Ok m1 =>
                let moved :=
                  match o_type object_to_rename with
                  | MOCK_FILE => _rename_single_object a new_path m1
                  | MOCK_DIR =>
                      match rename_children (Dict.values (_fs_by_oid m1))
                              (o_path object_to_rename) new_path m1 with
                      | (m2, Ok true) => (m2, Raise RuntimeError)
                      | (m2, Ok false) => (m2, Ok ())
                      | (m2, Raise e) => (m2, Raise e)
                      end
                  end in
                match moved with
                | (m2, Raise e) => (m2, Raise e)
                | (m2, Ok _) =>
                    match heap m2 !! a with
                    | Some o => (_register_event ACTION_RENAME o m2, Ok ())
                    | None => (m2, Raise AttributeError)
                    end
                end
            end
        end
  end.

(** The constructor: [mkdir(sync_root)] on the empty store, then
    [list(self.events())]; [root_id] is the [id()] of the root object.
    [__init__] is the outcome of the constructor: when [mkdir] raises
    (a sync root whose parent is not there) the constructor raises and
    no provider is built.  [init] is the provider built when it
    returns, as it does for a sync root that is its own parent, such as
    ["/"]. *)
Definition empty (sync_root : string) (recycle_oid : bool) : MockProvider :=
  mkMock recycle_oid sync_root ∅ [] [] [] (-1) (-1).

Definition __init__ (root_id : N) (sync_root : string) (recycle_oid : bool)
    : Result MockProvider :=
  match mkdir root_id sync_root (empty sync_root recycle_oid) with
  | (m, Ok _) => Ok (events_all m).1
  | (_, Raise e) => Raise e
  end.

Definition init (root_id : N) (sync_root : string) (recycle_oid : bool)
    : MockProvider :=
  (events_all (mkdir root_id sync_root (empty sync_root recycle_oid)).1).1.
End WithHash.
End Mock.

(** ** The older mock of tests/test_events.py

    Files are kept in one dictionary keyed by their remote name. *)
Module Legacy.

Record File : Type := mkFile {
  f_name : string;
  f_contents : bytes;
  f_remote_id : string;
  f_exists : bool;
  f_type : string
}.

Record MockProvider : Type := mkLegacy {
  _case_sensitive : bool;
  _allow_renames_over_existing : bool;
  heap : gmap N File;
  _fs : list (string * N)
}.

Definition empty : MockProvider := mkLegacy true true ∅ [].

Definition lookup (m : MockProvider) (remote_file : string) : option (N * File) :=
  a ← Dict.get (_fs m) remote_file; f ← heap m !! a; Some (a, f).

(** [upload] with the bytes read from the local file; [new_id] is the
    [id()] of the [File] constructed for a new name, and [hexdigest] is
    [md5(contents).hexdigest()], the [hash] of the pair returned. *)
Definition upload (hexdigest : bytes -> string) (new_id : N) (contents : bytes)
    (remote_file : string) (m : MockProvider) : MockProvider * (string * string) :=
  match lookup m remote_file with
  | Some (a, f) =>
      let f' := mkFile (f_name f) contents (f_remote_id f) (f_exists f) (f_type f) in
      (mkLegacy (_case_sensitive m) (_allow_renames_over_existing m)
                (<[a := f']> (heap m)) (_fs m),
       (f_remote_id f', hexdigest (f_contents f')))
  | None =>
      let f' := mkFile remote_file contents (pretty new_id) true "file" in
      (mkLegacy (_case_sensitive m) (_allow_renames_over_existing m)
                (<[new_id := f']> (heap m)) (Dict.set (_fs m) remote_file new_id),
       (f_remote_id f', hexdigest (f_contents f')))
  end.

Definition delete (remote_file : string) (m : MockProvider)
    : MockProvider * Result unit :=
  match lookup m remote_file with
  | Some (a, f) =>
      if f_exists f then
        (mkLegacy (_case_sensitive m) (_allow_renames_over_existing m)
                  (<[a := mkFile (f_name f) (f_contents f) (f_remote_id f) false (f_type f)]>
                     (heap m)) (_fs m),
         Ok ())
      else (m, Raise CloudFileNotFoundError)
  | None => (m, Raise CloudFileNotFoundError)
  end.

(** [exists]: the truth value of [file and file.exists]. *)
Definition exists_ (remote_file : string) (m : MockProvider) : bool :=
  match lookup m remote_file with
  | Some (_, f) => f_exists f
  | None => false
  end.

End Legacy.

(** ** The Google Drive provider (cloudsync/providers/gdrive.py) *)
Module GDrive.

(** What one request to Drive comes back with: a response, or one of the
    failures [_api] tells apart. *)
Inductive Http (A : Type) : Type :=
  | HOk (a : A)
  | H404
  | HRateLimit
  | HError
  | HTokenRefresh
  | HTimeout.
Arguments HOk {A} a.
Arguments H404 {A}.
Arguments HRateLimit {A}.
Arguments HError {A}.
Arguments HTokenRefresh {A}.
Arguments HTimeout {A}.

(** [files.get(fields='name, md5Checksum, parents')]. *)
Record FileMeta : Type := mkMeta {
  fm_name : option string;
  fm_md5 : option string;
  fm_parents : option (list string)
}.

(** One entry of [files.list(fields='files(id, md5Checksum, parents)')]. *)
Record Ent : Type := mkEnt {
  e_id : string;
  e_md5 : option string;
  e_parents : option (list string)
}.

(** One entry of [changes.list]: [file] is the mime type of the ['file']
    member when the change carries one. *)
Record Change : Type := mkChange {
  ch_fileId : string;
  ch_removed : bool;
  ch_file : option (option string)
}.

Record ChangesResponse : Type := mkResponse {
  changes : list Change;
  nextPageToken : option string;
  newStartPageToken : option string
}.

(** Drive itself, seen from the provider: a state [W] that answers reads
    and that writes move on. *)
Record DriveAPI (W : Type) : Type := mkAPI {
  files_get_root : W -> Http string;
  files_get : W -> string -> Http FileMeta;
  files_list : W -> option string -> string -> Http (list Ent);
  files_update : W -> string -> string -> list (option string)
                 -> option (list string) -> Http unit * W;
  files_create_folder : W -> string -> option string -> Http string * W;
  files_create : W -> string -> option string -> bytes
                 -> Http (option (string * string)) * W;
  files_delete : W -> string -> Http unit * W;
  changes_getStartPageToken : W -> Http (option string);
  changes_list : W -> string -> Http ChangesResponse
}.
Arguments files_get_root {W} d.
Arguments files_get {W} d.
Arguments files_list {W} d.
Arguments files_update {W} d.
Arguments files_create_folder {W} d.
Arguments files_create {W} d.
Arguments files_delete {W} d.
Arguments changes_getStartPageToken {W} d.
Arguments changes_list {W} d.

(** [GDriveInfo]: a [ProviderInfo] (oid, hash, path) with [pids], [name]. *)
Record GDriveInfo : Type := mkInfo {
  gi_oid : string;
  gi_hash : option string;
  gi_path : option string;
  gi_pids : option (list string);
  gi_name : option string
}.

(** The provider object; [client] is [self.client is not None]. *)
Record GDriveProvider : Type := mkGDrive {
  client : bool;
  _ids : list (string * string);
  __root_id : option string;
  __sync_root_id : option string;
  __cursor : option string;
  sync_root : string
}.

Definition with_ids (g : GDriveProvider) (ids : list (string * string)) : GDriveProvider :=
  mkGDrive (client g) ids (__root_id g) (__sync_root_id g) (__cursor g) (sync_root g).
Definition with_client (g : GDriveProvider) (c : bool) : GDriveProvider :=
  mkGDrive c (_ids g) (__root_id g) (__sync_root_id g) (__cursor g) (sync_root g).
Definition with_root_id (g : GDriveProvider) (r : option string) : GDriveProvider :=
  mkGDrive (client g) (_ids g) r (__sync_root_id g) (__cursor g) (sync_root g).
Definition with_sync_root_id (g : GDriveProvider) (r : option string) : GDriveProvider :=
  mkGDrive (client g) (_ids g) (__root_id g) r (__cursor g) (sync_root g).
Definition with_cursor (g : GDriveProvider) (c : option string) : GDriveProvider :=
  mkGDrive (client g) (_ids g) (__root_id g) (__sync_root_id g) c (sync_root g).

(** [__init__]. *)
Definition new (sync_root : string) : GDriveProvider :=
  mkGDrive false [("/", "root")] None None None sync_root.

(** Python's truth value of an optional string. *)
Definition truthy (o : option string) : bool :=
  match o with Some (String _ _) => true | _ => false end.

(** The first path the cache holds for [oid]. *)
Fixpoint find_path (ids : list (string * string)) (oid : string) : option string :=
  match ids with
  | [] => None
  | (p, pid) :: r => if decide (pid = oid) then Some p else find_path r oid
  end.

Section Provider.
Context {W : Type}.
Variable api : DriveAPI W.

(** A method run: from Drive and the provider to Drive, the provider and
    a value or an exception.  [None] is a recursion that has not returned
    within the fuel it was given. *)
Definition M (A : Type) : Type :=
  W * GDriveProvider -> option ((W * GDriveProvider) * Result A).

Definition ret {A} (a : A) : M A := fun st => Some (st, Ok a).
Definition raise {A} (e : PyError) : M A := fun st => Some (st, Raise e).
Definition out_of_fuel {A} : M A := fun _ => None.
Definition bind {A B} (m : M A) (k : A -> M B) : M B :=
  fun st =>
    match m st with
    | None => None
    | Some (st', Ok a) => k a st'
    | Some (st', Raise e) => Some (st', Raise e)
    end.
Definition self : M GDriveProvider := fun st => Some (st, Ok st.2).
Definition modify (f : GDriveProvider -> GDriveProvider) : M unit :=
  fun st => Some ((st.1, f st.2), Ok ()).

Notation "'do' x <- m ; k" := (bind m (fun x => k))
  (at level 10, x name, m at level 100, k at level 200).

(** [try: ... except CloudFileNotFoundError: return None]. *)
Definition or_none {A} (m : M A) : M (option A) :=
  fun st =>
    match m st with
    | None => None
    | Some (st', Ok a) => Some (st', Ok (Some a))
    | Some (st', Raise CloudFileNotFoundError) => Some (st', Ok None)
    | Some (st', Raise e) => Some (st', Raise e)
    end.

(** [_api]: the request goes out only when connected; token and
    transport failures disconnect. *)
Definition _api {A} (request : W -> Http A * W) : M A :=
  fun st =>
    let '(w, g) := st in
    if negb (client g) then Some (st, Raise CloudDisconnectedError)
    else
      let '(r, w') := request w in
      match r with
      | HOk a => Some ((w', g), Ok a)
      | H404 => Some ((w', g), Raise CloudFileNotFoundError)
      | HRateLimit => Some ((w', g), Raise CloudTemporaryError)
      | HError => Some ((w', g), Raise CloudTemporaryError)
      | HTokenRefresh => Some ((w', with_client g false), Raise CloudTokenError)
      | HTimeout => Some ((w', with_client g false), Raise CloudDisconnectedError)
      end.

Definition reading {A} (f : W -> Http A) : W -> Http A * W := fun w => (f w, w).

(** The [root_id] property. *)
Definition root_id : M string :=
  do g <- self;
  match __root_id g with
  | Some (String c r) => ret (String c r)
  | _ =>
      do id <- _api (reading (files_get_root api));
      do _ <- modify (fun g => with_ids (with_root_id g (Some id)) (Dict.set (_ids g) "/" id));
      ret id
  end.

(** The [cursor] property. *)
Definition cursor : M (option string) :=
  do g <- self;
  if truthy (__cursor g) then ret (__cursor g)
  else
    do tok <- _api (reading (changes_getStartPageToken api));
    do _ <- modify (fun g => with_cursor g tok);
    ret tok.

Definition _info_oid (oid : string) : M (option GDriveInfo) :=
  do res <- or_none (_api (reading (fun w => files_get api w oid)));
  match res with
  | None => ret None
  | Some res => ret (Some (mkInfo oid (fm_md5 res) None (fm_parents res) (fm_name res)))
  end.

(** [info_path] and [exists_path], given how to find a parent's id. *)
Definition info_path_with (get_parent : option string -> M (option string))
    (path : string) : M (option GDriveInfo) :=
  do parent_id <- get_parent (Some path);
  let name := (split path).2 in
  do res <- or_none (_api (reading (fun w => files_list api w parent_id name)));
  match res with
  | None => ret None
  | Some [] => ret None
  | Some (ent :: _) =>
      match e_parents ent with
      | None => raise KeyError
      | Some pids =>
          do _ <- modify (fun g => with_ids g (Dict.set (_ids g) path (e_id ent)));
          ret (Some (mkInfo (e_id ent) (e_md5 ent) (Some path) (Some pids) None))
      end
  end.

Definition exists_path_with (get_parent : option string -> M (option string))
    (path : string) : M bool :=
  do g <- self;
  if Dict.mem (_ids g) path then ret true
  else
    do i <- info_path_with get_parent path;
    ret (match i with Some _ => true | None => false end).

(** [get_parent_id], which calls [exists_path], which calls [info_path],
    which calls [get_parent_id] on the parent: [n] bounds the depth of
    these calls. *)
Fixpoint get_parent_id_fuel (n : nat) (path : option string) : M (option string) :=
  match n with
  | O => out_of_fuel
  | S n' =>
      match path with
      | None | Some EmptyString => ret None
      | Some p =>
          let parent := (split p).1 in
          if decide (parent = p) then
            do g <- self; ret (Dict.get (_ids g) parent)
          else
            do found <- exists_path_with (get_parent_id_fuel n') parent;
            if found then
              do g <- self;
              match Dict.get (_ids g) parent with
              | Some id => ret (Some id)
              | None => raise KeyError
              end
            else raise CloudFileNotFoundError
      end
  end.

(** Each call moves to a strictly shorter path, so the length of the
    path is fuel enough. *)
Definition path_fuel (path : option string) : nat :=
  match path with Some p => S (String.length p) | None => 1 end.

Definition get_parent_id (path : option string) : M (option string) :=
  get_parent_id_fuel (path_fuel path) path.

Definition info_path (path : string) : M (option GDriveInfo) :=
  info_path_with (get_parent_id_fuel (S (String.length path))) path.

Definition exists_path (path : string) : M bool :=
  exists_path_with (get_parent_id_fuel (S (String.length path))) path.

(** [_path_oid]: convert oid to path; [n] bounds the recursion depth. *)
Fixpoint _path_oid (n : nat) (oid : string) : M (option string) :=
  match n with
  | O => out_of_fuel
  | S n' =>
      do g <- self;
      match find_path (_ids g) oid with
      | Some p => ret (Some p)
      | None =>
          do info <- _info_oid oid;
          match info with
          | Some (mkInfo _ _ _ (Some (pid0 :: _)) (Some (String c nm))) =>
              do ppath <- _path_oid n' pid0;
              match ppath with
              | Some (String c' pp) =>
                  let path := String c' pp +:+ "/" +:+ String c nm in
                  do _ <- modify (fun g => with_ids g (Dict.set (_ids g) path oid));
                  ret (Some path)
              | _ => ret None
              end
          | _ => ret None
          end
      end
  end.

(** [is_suboid]; [n] bounds the recursion depth. *)
Fixpoint is_suboid (n : nat) (top : string) (oid : option string) : M bool :=
  match n with
  | O => out_of_fuel
  | S n' =>
      if decide (Some top = oid) then ret true
      else
        do pid <- get_parent_id oid;
        if decide (pid = oid) then ret false
        else is_suboid n' top pid
  end.

(** The loop at the end of [rename], over [list(self._ids.items())]. *)
Fixpoint rename_cache (items : list (string * string)) (oid path : string)
    (ids : list (string * string)) : list (string * string) :=
  match items with
  | [] => ids
  | (cpath, coid) :: r =>
      if decide (coid = oid) then
        rename_cache r oid path (Dict.set (Dict.del ids cpath) path oid)
      else rename_cache r oid path ids
  end.

Definition rename (oid path : string) : M unit :=
  do pid <- get_parent_id (Some path);
  do add_pids <-
    (if decide (pid = Some "root") then do r <- root_id; ret [Some r]
     else ret [pid]);
  do info <- _info_oid oid;
  match info with
  | None => raise AttributeError
  | Some info =>
      let remove_pids := gi_pids info in
      let name := (split path).2 in
      do _ <- _api (fun w => files_update api w oid name add_pids remove_pids);
      modify (fun g => with_ids g (rename_cache (_ids g) oid path (_ids g)))
  end.

(** [mkdir] ends without a [return]: its value is [None]. *)
Definition mkdir (path : string) : M (option string) :=
  do pid <- get_parent_id (Some path);
  let name := (split path).2 in
  do fileid <- _api (fun w => files_create_folder api w name pid);
  do _ <- modify (fun g => with_ids g (Dict.set (_ids g) path fileid));
  ret None.

Definition create (path : string) (file_like : bytes) : M (string * string * string) :=
  let name := (split path).2 in
  do parent_oid <- get_parent_id (Some path);
  do res <- _api (fun w => files_create api w name parent_oid file_like);
  match res with
  | None => raise CloudTemporaryError
  | Some (id, md5Checksum) =>
      do _ <- modify (fun g => with_ids g (Dict.set (_ids g) path id));
      ret (id, md5Checksum, path)
  end.

Definition delete (oid : string) : M unit :=
  _api (fun w => files_delete api w oid).

(** The [sync_root_id] property. *)
Definition sync_root_id : M string :=
  do g <- self;
  match __sync_root_id g with
  | Some (String c r) => ret (String c r)
  | _ =>
      do i1 <- info_path (sync_root g);
      do _ <- (match i1 with
               | None => do _ <- mkdir (sync_root g); ret ()
               | Some _ => ret ()
               end);
      do i2 <- info_path (sync_root g);
      match i2 with
      | None => raise CloudFileNotFoundError
      | Some _ =>
          do info <- info_path (sync_root g);
          match info with
          | None => raise AttributeError
          | Some info =>
              do _ <- modify (fun g => with_sync_root_id g (Some (gi_oid info)));
              ret (gi_oid info)
          end
      end
  end.

Definition _folder_mime_type : string := "application/vnd.google-apps.folder".

(** The body of the loop over one page of changes, up to its [continue]
    or [yield]: [Ok None] is a skipped change.  [n] is the fuel of the
    two ascents. *)
Definition process_change (n : nat) (change : Change) : M (option Event) :=
  let oid := ch_fileId change in
  let exists_ := negb (ch_removed change) in
  let otype :=
    match ch_file change with
    | Some mime =>
        if decide (mime = Some _folder_mime_type) then TagOType DIRECTORY
        else TagOType FILE
    | None => TagNone
    end in
  do path <- _path_oid n oid;
  do g <- self;
  do keep <-
    (match path with
     | Some (String c p) =>
         ret (match is_subpath (sync_root g) (String c p) false with
              | Some _ => true
              | None => false
              end)
     | _ => do top <- sync_root_id; is_suboid n top (Some oid)
     end);
  if keep then ret (Some (mkEvent otype oid path None exists_)) else ret None.






End Provider.
End GDrive.

(** ** The provider registry (cloudsync/registry.py) *)
Module Registry.

(** Python values that reach a constructor: strings and anything else. *)
Inductive Value : Type :=
  | VStr (s : string)
  | VObject (id : N).

Section Registry.
(** What calling a registered provider produces. *)
Context {R : Type}.

(** A call: its positional arguments and its keyword arguments. *)
Record Call : Type := mkCall {
  positional : list Value;
  keywords : list (string * Value)
}.

(** A registered provider: its [name] and what calling it does. *)
Record Prov : Type := mkProv {
  name : string;
  construct : Call -> R
}.

(** The module-level dictionary [providers]. *)
Definition register_provider (prov : Prov) (providers : list (string * Prov))
    : list (string * Prov) :=
  Dict.set providers (name prov) prov.

(** [sys.modules]: each module with its [__cloudsync__] attribute, if it
    has one. *)
Fixpoint discover_providers (modules : list (string * option Prov))
    (providers : list (string * Prov)) : list (string * Prov) :=
  match modules with
  | [] => providers
  | (_, Some prov) :: r =>
      if Dict.mem providers (name prov) then discover_providers r providers
      else discover_providers r (register_provider prov providers)
  | (_, None) :: r => discover_providers r providers
  end.

Definition provider_by_name (modules : list (string * option Prov)) (name : string)
    (providers : list (string * Prov)) : list (string * Prov) * Result Prov :=
  let providers1 :=
    if Dict.mem providers name then providers
    else discover_providers modules providers in
  match Dict.get providers1 name with
  | Some prov => (providers1, Ok prov)
  | None => (providers1, Raise RuntimeError)
  end.

(** The registered provider is called with [args] and the starred
    dictionary [kws]; iterating a dictionary gives its keys. *)
Definition create_provider (modules : list (string * option Prov)) (name : string)
    (args : list Value) (kws : list (string * Value))
    (providers : list (string * Prov)) : list (string * Prov) * Result R :=
  match provider_by_name modules name providers with
  | (providers1, Ok prov) =>
      (providers1, Ok (construct prov (mkCall (args ++ (VStr <$> Dict.keys kws)) [])))
  | (providers1, Raise e) => (providers1, Raise e)
  end.

Definition known_providers (modules : list (string * option Prov))
    (providers : list (string * Prov)) : list (string * Prov) * list string :=
  let providers1 := discover_providers modules providers in
  (providers1, Dict.keys providers1).

End Registry.
End Registry.

(** * Properties of the in-memory provider *)
Module MockFacts.
Import Mock.

(** "The parent directory of [path] exists": an existing directory is
    stored at [dirname path]. *)
Definition parent_dir_exists (m : MockProvider) (path : string) : bool :=
  match _get_by_path m (dirname path) with
  | Some (_, o) => o_exists o && bool_decide (o_type o = MOCK_DIR)
  | None => false
  end.

(** "[path] is occupied": an existing object is stored at [path]. *)
Definition occupied (m : MockProvider) (path : string) : bool :=
  live (_get_by_path m path).

Lemma verify_parent_ok m path :
  parent_dir_exists m path = true -> _verify_parent_folder_exists m path = Ok ().
Proof.
  unfold parent_dir_exists, _verify_parent_folder_exists.
  destruct (decide (dirname path = path)); [done|].
  destruct (_get_by_path m (dirname path)) as [[a o]|]; [|done].
  by intros ->.
Qed.


Lemma deref_with_dicts m bp bo r : deref (with_dicts m bp bo) r = deref m r.
Proof. done. Qed.

Lemma get_by_oid_store m a fo :
  heap m !! a = Some fo -> _get_by_oid (_store_object a fo m) (o_oid fo) = Some (a, fo).
Proof.
  intros Hh. unfold _get_by_oid, _store_object; simpl.
  rewrite Dict.get_set_eq. unfold deref; simpl. by rewrite Hh.
Qed.

Lemma get_by_path_store m a fo :
  heap m !! a = Some fo -> _get_by_path (_store_object a fo m) (o_path fo) = Some (a, fo).
Proof.
  intros Hh. unfold _get_by_path, _store_object; simpl.
  rewrite Dict.get_set_eq. unfold deref; simpl. by rewrite Hh.
Qed.

Section WithHash.
Variable md5 : bytes -> bytes.

(** What [create] does when it constructs a new [MockFSObject]: the
    state it leaves and the [OInfo] it returns. *)
Definition created (new_id : N) (path : string) (content : bytes) : MockFSObject :=
  mkObj path (Some content) (pretty new_id) true MOCK_FILE.

Lemma create_fresh_object m new_id path content :
  occupied m path = false ->
  _verify_parent_folder_exists m path = Ok () ->
  _recycle_oid m = false \/ _get_by_path m path = None ->
  exists m',
    create md5 new_id path content m
      = (m', Ok (mkOInfo FILE (pretty new_id) (Some (md5 content)) path))
    /\ _get_by_oid m' (pretty new_id) = Some (new_id, created new_id path content)
    /\ _get_by_path m' path = Some (new_id, created new_id path content)
    /\ _events m' = _events m ++ [mkMockEvent ACTION_CREATE (created new_id path content)].
Proof.
  unfold occupied. intros Hocc Hver Hnew. unfold create.
  rewrite Hocc, Hver.
  set (fo := new_object new_id path MOCK_FILE).
  set (m1 := _store_object new_id fo (with_heap m (<[new_id := fo]> (heap m)))).
  assert (Hbranch :
    match _get_by_path m path with
    | Some (a, _) => if _recycle_oid m then (m, a) else (m1, new_id)
    | None => (m1, new_id)
    end = (m1, new_id)).
  { destruct Hnew as [Hr|Hn]; [rewrite Hr | rewrite Hn]; [|done].
    by destruct (_get_by_path m path) as [[? ?]|]. }
  rewrite Hbranch.
  assert (Hh : heap (update_obj m1 new_id
              (fun o => set_exists true (set_contents content o))) !! new_id
            = Some (created new_id path content)).
  { unfold update_obj, m1; simpl. rewrite lookup_alter_eq, lookup_insert_eq. done. }
  rewrite Hh. eexists. split; [reflexivity|].
  split_and!.
  - unfold _get_by_oid; simpl. rewrite Dict.get_set_eq. unfold deref; simpl.
    rewrite lookup_alter_eq, lookup_insert_eq. done.
  - unfold _get_by_path; simpl. rewrite Dict.get_set_eq. unfold deref; simpl.
    rewrite lookup_alter_eq, lookup_insert_eq. done.
  - done.
Qed.

(** Round trip on the path that constructs a new object: [create]
    returns the new oid and the digest of the content, and [download] of
    that oid appends exactly the content to the sink. *)
Theorem create_then_download m new_id path content sink :
  occupied m path = false ->
  parent_dir_exists m path = true ->
  _recycle_oid m = false \/ _get_by_path m path = None ->
  exists m' info,
    create md5 new_id path content m = (m', Ok info)
    /\ oid info = pretty new_id
    /\ hash info = Some (md5 content)
    /\ download (oid info) sink m' = Ok (sink ++ content).
Proof.
  intros Hocc Hpar Hnew.
  destruct (create_fresh_object m new_id path content Hocc
              (verify_parent_ok _ _ Hpar) Hnew) as (m' & Hc & Hoid & _ & _).
  exists m', (mkOInfo FILE (pretty new_id) (Some (md5 content)) path).
  split_and!; [done..|]. simpl. unfold download. by rewrite Hoid.
Qed.

(** A provider that recycles oids, with a directory made at ["/d"] and
    then deleted. *)
Definition recycling_store : MockProvider :=
  (delete "2" (mkdir 2 "/d" (init 1 "/" true)).1).1.

(** C1 at its failing input.  On [recycling_store] the path ["/d"] is
    free and its parent exists, yet [create] there reuses the deleted
    directory object without making it a file: the [OInfo] returned is a
    DIRECTORY whose hash is absent.  (The content is stored all the same:
    [download] gives it back.) *)
Theorem create_on_recycled_directory_has_no_hash :
  occupied recycling_store "/d" = false
  /\ parent_dir_exists recycling_store "/d" = true
  /\ (create md5 3 "/d" b_hello recycling_store).2
       = Ok (mkOInfo DIRECTORY "2" None "/d")
  /\ download "2" [] (create md5 3 "/d" b_hello recycling_store).1 = Ok b_hello.
Proof. split_and!; vm_compute; reflexivity. Qed.


(** The object at address [a] is stored under its own path and oid, as
    [_store_object] leaves it. *)
Definition stored (m : MockProvider) (a : N) (o : MockFSObject) : Prop :=
  heap m !! a = Some o
  /\ Dict.get (_fs_by_path m) (o_path o) = Some a
  /\ Dict.get (_fs_by_oid m) (o_oid o) = Some a.

Lemma stored_get_by_oid m a o : stored m a o -> _get_by_oid m (o_oid o) = Some (a, o).
Proof. intros (Hh & _ & Ho). unfold _get_by_oid, deref. rewrite Ho; simpl. by rewrite Hh. Qed.

Lemma stored_get_by_path m a o : stored m a o -> _get_by_path m (o_path o) = Some (a, o).
Proof. intros (Hh & Hp & _). unfold _get_by_path, deref. rewrite Hp; simpl. by rewrite Hh. Qed.

(** C4 (amended).  [rename] of an existing object onto the path of
    another existing object, in the in-memory provider: when the two are
    of different types nothing is overwritten, the call raises
    [CloudFileExistsError] and changes nothing; when both are files the
    target is deleted first (marked as not existing, with a delete event
    logged before the rename events) and the rename then succeeds: the
    path resolves to the renamed object, which keeps its oid and
    contents, and its old path is gone. *)
Theorem rename_over_existing m a obj ca c :
  stored m a obj -> stored m ca c -> a <> ca ->
  o_exists obj = true -> o_exists c = true ->
  _verify_parent_folder_exists m (o_path c) = Ok () ->
  (o_type c <> o_type obj ->
     rename md5 (o_oid obj) (o_path c) m = (m, Raise CloudFileExistsError))
  /\ (o_type c = MOCK_FILE -> o_type obj = MOCK_FILE ->
      exists m',
        rename md5 (o_oid obj) (o_path c) m = (m', Ok ())
        /\ _get_by_oid m' (o_oid c) = Some (ca, set_exists false c)
        /\ _get_by_path m' (o_path c) = Some (a, set_path (o_path c) obj)
        /\ _get_by_oid m' (o_oid obj) = Some (a, set_path (o_path c) obj)
        /\ _get_by_path m' (o_path obj) = None
        /\ _events m' = _events m ++
             [mkMockEvent ACTION_DELETE (set_exists false c);
              mkMockEvent ACTION_RENAME (set_path (o_path c) obj);
              mkMockEvent ACTION_RENAME (set_path (o_path c) obj)]).
Proof.
  intros Hobj Hc Hne Hex Hcex Hver.
  pose proof (stored_get_by_oid _ _ _ Hobj) as Hgo.
  pose proof (stored_get_by_path _ _ _ Hc) as Hgp.
  pose proof (stored_get_by_oid _ _ _ Hc) as Hgc.
  destruct Hobj as (Hha & Hpa & Hoa), Hc as (Hhc & Hpc & Hoc).
  assert (Hpne : o_path obj <> o_path c) by (intros E; rewrite E in Hpa; congruence).
  assert (Hone : o_oid obj <> o_oid c) by (intros E; rewrite E in Hoa; congruence).
  split.
  - intros Hty. unfold rename. rewrite Hgo, Hex; simpl. rewrite Hgp, Hver, Hcex.
    by rewrite bool_decide_false.
  - intros Htc Hto. unfold rename. rewrite Hgo, Hex; simpl. rewrite Hgp, Hver, Hcex.
    rewrite bool_decide_true by congruence. simpl. rewrite Htc, Hto.
    unfold delete at 1. rewrite Hgc, Hcex. simpl.
    unfold _rename_single_object. simpl.
    rewrite lookup_alter_ne by done. rewrite Hha.
    unfold _unstore_object. simpl.
    unfold Dict.mem at 1. rewrite Hpa. simpl.
    unfold Dict.mem at 1. rewrite Hoa. simpl.
    rewrite lookup_alter_eq. rewrite lookup_alter_ne by done. rewrite Hha. simpl.
    eexists. split; [reflexivity|]. simpl.
    unfold _get_by_oid, _get_by_path, deref; simpl.
    rewrite !Dict.get_set_eq; simpl.
    rewrite (Dict.get_set_ne _ (o_oid obj) (o_oid c)) by done.
    rewrite (Dict.get_del_ne _ (o_oid obj) (o_oid c)) by done.
    rewrite Hoc; simpl.
    rewrite (Dict.get_set_ne _ (o_path c) (o_path obj)) by done.
    rewrite Dict.get_del_eq. simpl.
    rewrite (lookup_alter_ne _ _ a ca) by done.
    rewrite !lookup_alter_eq. rewrite (lookup_alter_ne _ _ ca a) by done.
    rewrite Hha, Hhc. simpl. rewrite <- !app_assoc. done.
Qed.

(** C8 at its failing input.  A file is created and then deleted: [walk]
    still yields an event for it, with [exists = False], and the type it
    carries is the mock's own string ['mock file'], not a member of the
    normalized [OType]. *)
Theorem walk_yields_deleted_object_with_raw_type :
  walk md5 (delete "2" (create md5 2 "/a.txt" b_hello (init 1 "/" false)).1).1
  = mkTrace [mkEvent (TagStr "mock file") "2" (Some "/a.txt")
                     (Some (md5 b_hello)) false] None.
Proof. vm_compute. reflexivity. Qed.

(** [mkdir] in the in-memory provider returns the oid of the directory
    that [info_path] finds at [path] afterwards: the one already there,
    or the one just made. *)
Theorem mock_mkdir_returns_directory_oid m new_id path :
  parent_dir_exists m path = true ->
  (forall a o, _get_by_path m path = Some (a, o) -> o_exists o = true ->
               o_type o = MOCK_DIR) ->
  exists m' oid_made info,
    mkdir new_id path m = (m', Ok oid_made)
    /\ info_path md5 m' path = Ok (Some info)
    /\ oid info = oid_made
    /\ otype info = DIRECTORY.
Proof.
  intros Hpar Hfile. unfold mkdir. rewrite (verify_parent_ok _ _ Hpar).
  set (fo := new_object new_id path MOCK_DIR).
  assert (Hnew : info_path md5
            (_register_event ACTION_CREATE fo
               (_store_object new_id fo (with_heap m (<[new_id := fo]> (heap m))))) path
          = Ok (Some (mkOInfo DIRECTORY (o_oid fo) None path))).
  { unfold info_path, _get_by_path; simpl. rewrite Dict.get_set_eq.
    unfold deref; simpl. by rewrite lookup_insert_eq. }
  destruct (_get_by_path m path) as [[a o]|] eqn:Hg.
  - destruct (o_exists o) eqn:Hex.
    + rewrite (Hfile a o eq_refl Hex).
      exists m, (o_oid o), (mkOInfo DIRECTORY (o_oid o) None (o_path o)).
      split_and!; [done| |done..].
      unfold info_path. rewrite Hg, Hex. unfold to_oinfo, o_hash, o_otype.
      by rewrite (Hfile a o eq_refl Hex).
    + by eexists _, _, _.
  - by eexists _, _, _.
Qed.

End WithHash.

(** A stand-in for the digest where a concrete run needs one. *)
Definition digest_stub (b : bytes) : bytes := b.

(** [test_mock_basic]: create ["/hi.txt"] with [b"hello"] on a new
    provider, download it through the oid returned. *)
Lemma create_then_download_witness :
  exists m' info,
    create digest_stub 2 "/hi.txt" b_hello (init 1 "/" false) = (m', Ok info)
    /\ oid info = pretty 2%N
    /\ hash info = Some (digest_stub b_hello)
    /\ download (oid info) [] m' = Ok ([] ++ b_hello).
Proof.
  apply (create_then_download digest_stub (init 1 "/" false) 2 "/hi.txt" b_hello []);
    [reflexivity | reflexivity | left; reflexivity].
Defined.

(** C2 (amended).  In the in-memory provider, [delete] of an oid that
    does not exist (never stored, or stored with [exists = False]) raises
    nothing and leaves the whole provider, object store and event log
    included, as it was. *)
Theorem delete_absent_oid_is_noop (m : MockProvider) (oid : string) :
  exists_oid m oid = false -> delete oid m = (m, Ok ()).
Proof.
  unfold exists_oid, live, delete.
  destruct (_get_by_oid m oid) as [[a o]|]; [|done].
  by intros ->.
Qed.

(** A provider in which the file with oid ["2"] was created and deleted. *)
Definition store_with_deleted_file : MockProvider :=
  (delete "2" (create digest_stub 2 "/a.txt" b_hello (init 1 "/" false)).1).1.

Lemma delete_absent_oid_is_noop_witness :
  delete "2" store_with_deleted_file = (store_with_deleted_file, Ok ())
  /\ delete "never" store_with_deleted_file = (store_with_deleted_file, Ok ()).
Proof.
  split; apply delete_absent_oid_is_noop; reflexivity.
Defined.

End MockFacts.

(** * Properties of the older mock *)
Module LegacyFacts.

(** A stand-in for the hexadecimal digest where a concrete run needs
    one. *)
Definition hexdigest_stub (b : bytes) : string := String.string_of_list_byte b.

(** A store whose file ["/a"] was uploaded and then deleted. *)
Definition store_with_deleted_name : Legacy.MockProvider :=
  (Legacy.delete "/a" (Legacy.upload hexdigest_stub 1 b_hello "/a" Legacy.empty).1).1.

(** C2, counterexample.  The mock of tests/test_events.py guards its
    [delete] with [raise CloudFileNotFoundError]: deleting a name that was
    never stored, or one that was already deleted, is an error there. *)
Lemma legacy_delete_absent_raises :
  Legacy.exists_ "/gone" Legacy.empty = false
  /\ (Legacy.delete "/gone" Legacy.empty).2 = Raise CloudFileNotFoundError
  /\ Legacy.exists_ "/a" store_with_deleted_name = false
  /\ (Legacy.delete "/a" store_with_deleted_name).2 = Raise CloudFileNotFoundError.
Proof. split_and!; vm_compute; reflexivity. Qed.

End LegacyFacts.

(** ** A Drive to run the provider against

    A small Drive for the concrete runs below: files by id, the answers
    to the name queries by (parent id, name), pages of changes by token,
    and a journal of the writes it received. *)
Module TestDrive.
Import GDrive.

Inductive Write : Type :=
  | WUpdate (oid name : string)
  | WCreateFolder (name : string) (parent : option string)
  | WCreate (name : string) (parent : option string)
  | WDelete (oid : string).

Record Drive : Type := mkDrive {
  files : list (string * FileMeta);
  listing : list ((option string * string) * list Ent);
  pages : list (string * ChangesResponse);
  journal : list Write
}.

Definition logged (w : Drive) (x : Write) : Drive :=
  mkDrive (files w) (listing w) (pages w) (journal w ++ [x]).

Fixpoint answer (l : list ((option string * string) * list Ent))
    (q : option string * string) : list Ent :=
  match l with
  | [] => []
  | (q', ents) :: r => if decide (q' = q) then ents else answer r q
  end.

Definition api : DriveAPI Drive :=
  mkAPI Drive
    (fun _ => HOk "root")
    (fun w oid =>
       match Dict.get (files w) oid with Some meta => HOk meta | None => H404 end)
    (fun w parent_id name => HOk (answer (listing w) (parent_id, name)))
    (fun w oid name _ _ =>
       if Dict.mem (files w) oid then (HOk (), logged w (WUpdate oid name))
       else (H404, w))
    (fun w name parent => (HOk ("id-of-" +:+ name), logged w (WCreateFolder name parent)))
    (fun w name parent _ =>
       (HOk (Some ("id-of-" +:+ name, "md5-of-" +:+ name)), logged w (WCreate name parent)))
    (fun w oid =>
       if Dict.mem (files w) oid then (HOk (), logged w (WDelete oid))
       else (H404, w))
    (fun _ => HOk (Some "page-1"))
    (fun w tok =>
       match Dict.get (pages w) tok with
       | Some response => HOk response
       | None => HOk (mkResponse [] None (Some tok))
       end).

(** A connected provider with the cache of a new one. *)
Definition connected : GDriveProvider := with_client (new "/") true.

End TestDrive.

(** * Properties of the Google Drive provider *)
Module GDriveFacts.
Import GDrive.

Section Provider.
Context {W : Type}.
Variable api : DriveAPI W.

Local Abbreviation St := (W * GDriveProvider)%type.
Local Abbreviation Run := (@M W).

(** ** Runs that return *)

(** A computation is [total] when it returns from every state. *)
Definition total {A} (m : Run A) : Prop := forall st, m st <> None.

Lemma total_ret {A} (a : A) : total (@ret W A a).
Proof. by intros st. Qed.

Lemma total_raise {A} e : total (@raise W A e).
Proof. by intros st. Qed.

Lemma total_self : total (@self W).
Proof. by intros st. Qed.

Lemma total_modify f : total (@modify W f).
Proof. by intros st. Qed.

Lemma total_bind {A B} (m : Run A) (k : A -> Run B) :
  total m -> (forall a, total (k a)) -> total (bind m k).
Proof.
  intros Hm Hk st. unfold bind. specialize (Hm st).
  destruct (m st) as [[st' [a|e]]|]; [apply Hk | done | done].
Qed.

Lemma total_api {A} (request : W -> Http A * W) : total (_api request).
Proof.
  intros [w g]. unfold _api. destruct (negb (client g)); [done|].
  destruct (request w) as [[] w']; done.
Qed.

Lemma total_or_none {A} (m : Run A) : total m -> total (or_none m).
Proof.
  intros Hm st. unfold or_none. specialize (Hm st).
  destruct (m st) as [[st' [a|[]]]|]; done.
Qed.

Ltac total_step :=
  first
    [ apply total_ret | apply total_raise | apply total_self
    | apply total_modify | apply total_api
    | apply total_or_none
    | apply total_bind; [|intros ?]
    | match goal with
      | |- total (match ?x with _ => _ end) => destruct x
      | |- total (if ?b then _ else _) => destruct b
      end ].

Lemma total_info_oid oid : total (_info_oid api oid).
Proof. unfold _info_oid. repeat total_step. Qed.

Lemma total_root_id : total (root_id api).
Proof. unfold root_id. repeat total_step. Qed.

Lemma total_cursor : total (cursor api).
Proof. unfold cursor. repeat total_step. Qed.

Lemma total_info_path_with get_parent path :
  total (get_parent (Some path)) -> total (info_path_with api get_parent path).
Proof. intros H. unfold info_path_with. apply total_bind; [done|]. intros ?. repeat total_step. Qed.

Lemma total_exists_path_with get_parent path :
  total (get_parent (Some path)) -> total (exists_path_with api get_parent path).
Proof.
  intros H. unfold exists_path_with. apply total_bind; [apply total_self|].
  intros g. destruct (Dict.mem (_ids g) path); [apply total_ret|].
  apply total_bind; [by apply total_info_path_with|]. intros ?. apply total_ret.
Qed.

Definition path_length (path : option string) : nat :=
  match path with Some p => String.length p | None => 0 end.

(** The ascent through the parents of a path returns as soon as the
    fuel exceeds the length of the path. *)
Lemma get_parent_id_fuel_total n path :
  path_length path < n -> total (get_parent_id_fuel api n path).
Proof.
  revert path. induction n as [|n IH]; intros path Hlen; [lia|].
  simpl. destruct path as [[|c p]|]; [apply total_ret | | apply total_ret].
  destruct (decide ((split (String c p)).1 = String c p)) as [Heq|Hne].
  - repeat total_step.
  - apply total_bind.
    + apply total_exists_path_with, IH. simpl.
      pose proof (split_shorter _ Hne). simpl in *. lia.
    + intros []; repeat total_step.
Qed.

Lemma get_parent_id_total path : total (get_parent_id api path).
Proof.
  unfold get_parent_id. apply get_parent_id_fuel_total.
  destruct path; simpl; lia.
Qed.

Lemma info_path_total path : total (info_path api path).
Proof.
  unfold info_path. apply total_info_path_with, get_parent_id_fuel_total. simpl. lia.
Qed.

Lemma exists_path_total path : total (exists_path api path).
Proof.
  unfold exists_path. apply total_exists_path_with, get_parent_id_fuel_total. simpl. lia.
Qed.

Lemma info_path_with_ext g1 g2 path st :
  g1 (Some path) st = g2 (Some path) st ->
  info_path_with api g1 path st = info_path_with api g2 path st.
Proof. intros H. unfold info_path_with, bind. by rewrite H. Qed.

Lemma exists_path_with_ext g1 g2 path st :
  g1 (Some path) st = g2 (Some path) st ->
  exists_path_with api g1 path st = exists_path_with api g2 path st.
Proof.
  intros H. unfold exists_path_with, bind, self. simpl.
  destruct (Dict.mem (_ids st.2) path); [done|].
  by rewrite (info_path_with_ext g1 g2 path st H).
Qed.

(** More fuel than the length of the path changes nothing. *)
Lemma get_parent_id_fuel_irrelevant n1 n2 path st :
  path_length path < n1 -> path_length path < n2 ->
  get_parent_id_fuel api n1 path st = get_parent_id_fuel api n2 path st.
Proof.
  revert n2 path st. induction n1 as [|n1 IH]; intros n2 path st H1 H2; [lia|].
  destruct n2 as [|n2]; [lia|]. simpl.
  destruct path as [[|c p]|]; [done| |done].
  destruct (decide ((split (String c p)).1 = String c p)) as [Heq|Hne]; [done|].
  pose proof (split_shorter _ Hne) as Hs. simpl in H1, H2, Hs.
  unfold bind at 1 3.
  rewrite (exists_path_with_ext (get_parent_id_fuel api n1) (get_parent_id_fuel api n2));
    [done|].
  apply IH; simpl; lia.
Qed.

(** ** What a lookup of a parent may change *)

Lemma bind_inv {A B} (m : Run A) (k : A -> Run B) st st' r :
  bind m k st = Some (st', r) ->
  (exists st1 a, m st = Some (st1, Ok a) /\ k a st1 = Some (st', r))
  \/ (exists e, m st = Some (st', Raise e) /\ r = Raise e).
Proof.
  unfold bind. destruct (m st) as [[st1 [a|e]]|]; [|intros [= <- <-]|done].
  - intros H. left. by exists st1, a.
  - right. by exists e.
Qed.

Lemma bind_ok {A B} (m : Run A) (k : A -> Run B) st st' a :
  m st = Some (st', Ok a) -> bind m k st = k a st'.
Proof. intros H. unfold bind. by rewrite H. Qed.

(** A read leaves Drive and the provider as they are, except that it
    may disconnect the client. *)
Lemma api_reading_inv {A} (f : W -> Http A) st st' r :
  _api (reading f) st = Some (st', r) ->
  st'.1 = st.1 /\ (st'.2 = st.2 \/ st'.2 = with_client st.2 false).
Proof.
  destruct st as [w g]. unfold _api, reading.
  destruct (negb (client g)); [intros [= <- <-]; auto|].
  destruct (f w); intros [= <- <-]; simpl; auto.
Qed.

Lemma or_none_inv {A} (m : Run A) st st' r :
  or_none m st = Some (st', r) -> exists r0, m st = Some (st', r0).
Proof.
  unfold or_none. destruct (m st) as [[st1 [a|e]]|]; [| |done].
  - intros [= <- <-]. by eexists.
  - destruct e; intros [= <- <-]; by eexists.
Qed.

(** From [st] to [st']: Drive is the same, and the cache kept every
    entry it had; what it gained are paths shorter than [L]. *)
Definition grows_below (L : nat) (st st' : St) : Prop :=
  st'.1 = st.1
  /\ forall k, Dict.get (_ids st'.2) k = Dict.get (_ids st.2) k
             \/ (Dict.get (_ids st.2) k = None /\ String.length k < L).

Lemma grows_below_refl L st : grows_below L st st.
Proof. split; [done | by left]. Qed.

Lemma grows_below_mono L1 L2 st st' :
  L1 <= L2 -> grows_below L1 st st' -> grows_below L2 st st'.
Proof.
  intros HL [Hw Hk]. split; [done|]. intros k.
  destruct (Hk k) as [?|[? ?]]; [by left | right; split; [done|lia]].
Qed.

Lemma grows_below_client L st st1 st' :
  grows_below L st st1 ->
  st'.1 = st1.1 -> (st'.2 = st1.2 \/ st'.2 = with_client st1.2 false) ->
  grows_below L st st'.
Proof.
  intros [Hw Hk] Hw' Hg. split; [congruence|].
  intros k. destruct Hg as [->| ->]; apply Hk.
Qed.

Lemma exists_path_with_grows get_parent path st st' r :
  (forall st st' r, get_parent (Some path) st = Some (st', r) ->
                    grows_below (String.length path) st st') ->
  exists_path_with api get_parent path st = Some (st', r) ->
  grows_below (S (String.length path)) st st'.
Proof.
  intros Hget. unfold exists_path_with, bind at 1, self. simpl.
  destruct (Dict.mem (_ids st.2) path) eqn:Hmem.
  { intros [= <- <-]. apply grows_below_refl. }
  assert (Hnone : Dict.get (_ids st.2) path = None).
  { unfold Dict.mem in Hmem. by destruct (Dict.get (_ids st.2) path). }
  intros H. apply bind_inv in H as [(st1 & i & Hi & Hr)|(e & Hi & _)].
  2: revert Hi. 1: injection Hr as <- _; revert Hi.
  all: unfold info_path_with; intros Hi;
    apply bind_inv in Hi as [(st2 & pid & Hp & Hi)|(e' & Hp & _)];
    [|eapply grows_below_mono; [|by eapply Hget]; lia];
    apply Hget in Hp;
    apply bind_inv in Hi as [(st3 & res & Hres & Hi)|(e' & Hres & _)];
    apply or_none_inv in Hres as [r0 Hres];
    apply api_reading_inv in Hres as [Hw3 Hg3];
    pose proof (grows_below_client _ _ _ _ (grows_below_mono _ (S (String.length path)) _ _
                  (Nat.le_succ_diag_r _) Hp) Hw3 Hg3) as H3; [|done].
  all: destruct res as [[|ent ents]|]; try (injection Hi as <- _; done).
  all: destruct (e_parents ent); [|injection Hi as <- _; done].
  all: apply bind_inv in Hi as [(st4 & [] & Hm & Hi)|(e' & Hm & _)];
    [injection Hi as <- _|]; unfold modify in Hm; injection Hm as <-.
  all: destruct H3 as [Hw Hk]; split; [done|]; intros k; simpl.
  all: destruct (decide (path = k)) as [<-|Hne];
    [right; split; [done|lia] | rewrite Dict.get_set_ne by done; apply Hk].
Qed.

Lemma get_parent_id_fuel_grows n path st st' r :
  get_parent_id_fuel api n path st = Some (st', r) ->
  grows_below (path_length path) st st'.
Proof.
  revert path st st' r. induction n as [|n IH]; intros path st st' r; [done|].
  simpl. destruct path as [[|c p]|].
  - intros [= <- <-]. apply grows_below_refl.
  - destruct (decide ((split (String c p)).1 = String c p)) as [Heq|Hne].
    { intros [= <- <-]. apply grows_below_refl. }
    pose proof (split_shorter _ Hne) as Hs.
    intros H. apply bind_inv in H as [(st1 & found & Hf & H)|(e & Hf & _)].
    + apply exists_path_with_grows in Hf; [|intros ???; apply (IH (Some _))].
      assert (st' = st1) as ->.
      { destruct found; [|by injection H as <- _].
        unfold bind, self in H. simpl in H.
        destruct (Dict.get (_ids st1.2) (split (String c p)).1);
          by injection H as <- _. }
      eapply grows_below_mono; [|done]. simpl in *. lia.
    + apply exists_path_with_grows in Hf; [|intros ???; apply (IH (Some _))].
      eapply grows_below_mono; [|done]. simpl in *. lia.
  - intros [= <- <-]. apply grows_below_refl.
Qed.

(** Every entry of the cache of [st] is an entry of the cache of [st']. *)
Definition cache_kept (st st' : St) : Prop :=
  forall p id, Dict.get (_ids st.2) p = Some id -> Dict.get (_ids st'.2) p = Some id.

Lemma grows_below_kept L st st' : grows_below L st st' -> cache_kept st st'.
Proof.
  intros [_ Hk] p id Hp. destruct (Hk p) as [->|[? _]]; [done|congruence].
Qed.




End Provider.
End GDriveFacts.

(** * Rename onto a path without a parent *)
Module RenameFacts.


(** Drive holds the folder ["a"] (id ["A"]) in the root and nothing in
    it. *)
Definition drive_with_folder : TestDrive.Drive :=
  TestDrive.mkDrive
    [("A", GDrive.mkMeta (Some "a") None (Some ["root"]))]
    [((Some "root", "a"), [GDrive.mkEnt "A" None (Some ["root"])])] [] [].

Definition resolved_folder : GDrive.GDriveProvider :=
  GDrive.with_ids TestDrive.connected [("/", "root"); ("/a", "A")].






End RenameFacts.

(** * Rename onto an occupied path *)
Module RenameOverFacts.
Import Mock.

(** Two files, ["/a.txt"] (oid ["2"]) and ["/b.txt"] (oid ["3"]). *)
Definition two_files : MockProvider :=
  (create MockFacts.digest_stub 3 "/b.txt" b_hello
     (create MockFacts.digest_stub 2 "/a.txt" b_hello (init 1 "/" false)).1).1.

Definition file_a : MockFSObject := mkObj "/a.txt" (Some b_hello) "2" true MOCK_FILE.
Definition file_b : MockFSObject := mkObj "/b.txt" (Some b_hello) "3" true MOCK_FILE.

Lemma rename_over_existing_witness :
  exists m',
    rename MockFacts.digest_stub "2" "/b.txt" two_files = (m', Ok ())
    /\ _get_by_oid m' "3" = Some (3%N, set_exists false file_b)
    /\ _get_by_path m' "/b.txt" = Some (2%N, set_path "/b.txt" file_a)
    /\ _get_by_oid m' "2" = Some (2%N, set_path "/b.txt" file_a)
    /\ _get_by_path m' "/a.txt" = None
    /\ _events m' = _events two_files ++
         [mkMockEvent ACTION_DELETE (set_exists false file_b);
          mkMockEvent ACTION_RENAME (set_path "/b.txt" file_a);
          mkMockEvent ACTION_RENAME (set_path "/b.txt" file_a)].
Proof.
  apply (proj2 (MockFacts.rename_over_existing MockFacts.digest_stub
                  two_files 2 file_a 3 file_b
                  (conj eq_refl (conj eq_refl eq_refl))
                  (conj eq_refl (conj eq_refl eq_refl))
                  ltac:(discriminate) eq_refl eq_refl eq_refl));
    reflexivity.
Defined.

(** The file ["/a.txt"] (oid ["2"]) and the directory ["/d"] (oid ["3"]). *)
Definition file_and_directory : MockProvider :=
  (mkdir 3 "/d"
     (create MockFacts.digest_stub 2 "/a.txt" b_hello (init 1 "/" false)).1).1.

(** C4, counterexample.  Both objects exist; renaming the file onto the
    path of the directory deletes nothing and does not succeed: it raises
    [CloudFileExistsError] and the provider is as before. *)
Lemma rename_file_over_directory_raises :
  exists_oid file_and_directory "2" = true
  /\ exists_path file_and_directory "/d" = true
  /\ rename MockFacts.digest_stub "2" "/d" file_and_directory
     = (file_and_directory, Raise CloudFileExistsError).
Proof. split_and!; vm_compute; reflexivity. Qed.

End RenameOverFacts.

(** * The path -> oid cache of the Drive provider *)
Module CacheFacts.
Import GDrive.

(** No oid is cached under two paths. *)
Definition one_path_per_oid (ids : list (string * string)) : Prop :=
  forall p1 p2 oid, (p1, oid) ∈ ids -> (p2, oid) ∈ ids -> p1 = p2.

Definition one_path_per_oidb (ids : list (string * string)) : bool :=
  forallb (fun x => forallb (fun y =>
    if decide (x.2 = y.2) then bool_decide (x.1 = y.1) else true) ids) ids.

Lemma one_path_per_oidb_true ids :
  one_path_per_oidb ids = true -> one_path_per_oid ids.
Proof.
  unfold one_path_per_oidb. rewrite forallb_forall. intros H p1 p2 o H1 H2.
  apply list_elem_of_In in H1, H2. specialize (H _ H1).
  rewrite forallb_forall in H. specialize (H _ H2). simpl in H.
  rewrite decide_True in H by done. by apply bool_decide_eq_true in H.
Qed.

Lemma elem_of_dict_set (d : list (string * string)) k v p o :
  (p, o) ∈ Dict.set d k v -> (p, o) = (k, v) \/ (p, o) ∈ d.
Proof.
  induction d as [|[k0 v0] r IH]; simpl.
  - intros H. apply list_elem_of_singleton in H. by left.
  - destruct (decide (k0 = k)) as [->|Hne]; rewrite !elem_of_cons.
    + intros [?|?]; [by left | right; by right].
    + intros [?|H]; [right; by left|].
      destruct (IH H) as [?|?]; [by left | right; by right].
Qed.

Lemma elem_of_dict_del (d : list (string * string)) k p o :
  (p, o) ∈ Dict.del d k -> (p, o) ∈ d /\ p <> k.
Proof.
  induction d as [|[k0 v0] r IH]; simpl; [by intros ?%elem_of_nil|].
  destruct (decide (k0 = k)) as [->|Hne]; rewrite ?elem_of_cons.
  - intros H. destruct (IH H). split; [by right | done].
  - intros [[= -> ->]|H]; [split; [by left | done]|].
    destruct (IH H). split; [by right | done].
Qed.

(** The loop of [rename]: what is left under [oid] is the new path or
    an item still to be visited; every other entry was there before. *)
Lemma rename_cache_entries (items : list (string * string)) oid path
    (ids0 cur : list (string * string)) p o :
  (forall p' o', (p', o') ∈ cur -> o' <> oid -> (p', o') ∈ ids0) ->
  (forall p', (p', oid) ∈ cur -> p' = path \/ (p', oid) ∈ items) ->
  (p, o) ∈ rename_cache items oid path cur ->
  if decide (o = oid) then p = path else (p, o) ∈ ids0.
Proof.
  revert cur. induction items as [|[cpath coid] r IH]; intros cur Hother Hoid; simpl.
  - intros Hin. destruct (decide (o = oid)) as [->|Hne].
    + destruct (Hoid p Hin) as [?|H]; [done | by apply elem_of_nil in H].
    + by apply Hother.
  - destruct (decide (coid = oid)) as [->|Hc].
    + apply IH.
      * intros p' o' Hin Hne.
        apply elem_of_dict_set in Hin as [[= -> ->]|Hin]; [done|].
        apply elem_of_dict_del in Hin as [Hin _]. by apply Hother.
      * intros p' Hin.
        apply elem_of_dict_set in Hin as [[= ->]|Hin]; [by left|].
        apply elem_of_dict_del in Hin as [Hin Hne].
        destruct (Hoid p' Hin) as [?|Hi]; [by left|].
        apply elem_of_cons in Hi as [[= ->]|?]; [done | by right].
    + apply IH; [done|].
      intros p' Hin. destruct (Hoid p' Hin) as [?|Hi]; [by left|].
      apply elem_of_cons in Hi as [[= -> ->]|?]; [done | by right].
Qed.

Lemma set_has_entry (d : list (string * string)) k v : (k, v) ∈ Dict.set d k v.
Proof. apply Dict.get_Some_in, Dict.get_set_eq. Qed.

Lemma rename_cache_has_path items oid path (cur : list (string * string)) :
  (exists p, (p, oid) ∈ items) \/ (path, oid) ∈ cur ->
  (path, oid) ∈ rename_cache items oid path cur.
Proof.
  revert cur. induction items as [|[cpath coid] r IH]; intros cur; simpl.
  - intros [[p Hp]|H]; [by apply elem_of_nil in Hp | done].
  - destruct (decide (coid = oid)) as [->|Hne].
    + intros _. apply IH. right. apply set_has_entry.
    + intros [[p Hp]|H]; apply IH; [|by right].
      apply elem_of_cons in Hp as [[= -> ->]|Hp]; [done|]. left. by exists p.
Qed.

(** The loop leaves alone a cache that does not hold [oid]. *)
Lemma rename_cache_without_oid (items : list (string * string)) oid path
    (cur : list (string * string)) :
  (forall p, (p, oid) ∉ items) -> rename_cache items oid path cur = cur.
Proof.
  induction items as [|[cpath coid] r IH]; intros Hnone; simpl; [done|].
  destruct (decide (coid = oid)) as [->|Hne].
  - exfalso. apply (Hnone cpath). apply list_elem_of_here.
  - apply IH. intros p Hp. apply (Hnone p). by apply list_elem_of_further.
Qed.

(** The cache update at the end of [rename], on a cache that holds no
    oid under two paths: afterwards no oid is held under two paths;
    [oid] is held under [path] and under no other path, if the cache
    held it at all, and the cache is as it was if it did not; and no
    other oid has gained a path. *)
Theorem rename_keeps_one_path_per_oid ids oid path :
  one_path_per_oid ids ->
  one_path_per_oid (rename_cache ids oid path ids)
  /\ (forall p, (p, oid) ∈ rename_cache ids oid path ids -> p = path)
  /\ ((exists p0, (p0, oid) ∈ ids) -> (path, oid) ∈ rename_cache ids oid path ids)
  /\ ((forall p0, (p0, oid) ∉ ids) -> rename_cache ids oid path ids = ids)
  /\ (forall p o, o <> oid -> (p, o) ∈ rename_cache ids oid path ids -> (p, o) ∈ ids).
Proof.
  intros Hinj.
  assert (Honly : forall p, (p, oid) ∈ rename_cache ids oid path ids -> p = path).
  { intros p Hp.
    pose proof (rename_cache_entries ids oid path ids ids p oid) as E.
    rewrite decide_True in E by done. apply E; auto. }
  assert (Hother : forall p o, o <> oid ->
            (p, o) ∈ rename_cache ids oid path ids -> (p, o) ∈ ids).
  { intros p o Hne Hp.
    pose proof (rename_cache_entries ids oid path ids ids p o) as E.
    rewrite decide_False in E by done. apply E; auto. }
  split_and!; [|done| |by apply rename_cache_without_oid|done].
  - intros p1 p2 o H1 H2. destruct (decide (o = oid)) as [->|Hne].
    + by rewrite (Honly p1 H1), (Honly p2 H2).
    + eapply Hinj; by eapply Hother.
  - intros Hin. apply rename_cache_has_path. by left.
Qed.

Lemma rename_keeps_one_path_per_oid_witness :
  one_path_per_oid
    (rename_cache [("/", "root"); ("/a", "X")] "X" "/b" [("/", "root"); ("/a", "X")])
  /\ (forall p,
        (p, "X") ∈ rename_cache [("/", "root"); ("/a", "X")] "X" "/b"
                     [("/", "root"); ("/a", "X")] -> p = "/b")
  /\ ("/b", "X") ∈ rename_cache [("/", "root"); ("/a", "X")] "X" "/b"
                     [("/", "root"); ("/a", "X")].
Proof.
  destruct (rename_keeps_one_path_per_oid [("/", "root"); ("/a", "X")] "X" "/b")
    as (H1 & H2 & H3 & _ & _).
  { apply one_path_per_oidb_true. reflexivity. }
  split; [exact H1|]. split; [exact H2|].
  apply H3. exists "/a". apply list_elem_of_further, list_elem_of_here.
Defined.

(** The object ["X"] is named ["b"] on Drive (it was renamed there from
    ["a"]); the cache still has it under ["/a"]. *)
Definition drive_after_remote_rename : TestDrive.Drive :=
  TestDrive.mkDrive
    [("X", mkMeta (Some "b") None (Some ["root"]))]
    [((Some "root", "b"), [mkEnt "X" None (Some ["root"])])] [] [].

Definition stale_cache : GDriveProvider :=
  with_ids TestDrive.connected [("/", "root"); ("/a", "X")].

(** C5 at its failing input.  [info_path("/b")] finds the object and
    caches it under ["/b"] without dropping ["/a"]: the cache, which had
    one path per oid, now maps the two paths ["/a"] and ["/b"] to the
    same oid ["X"]. *)
Theorem info_path_caches_second_path_for_oid :
  one_path_per_oid (_ids stale_cache)
  /\ (exists st' info,
        info_path TestDrive.api "/b" (drive_after_remote_rename, stale_cache)
          = Some (st', Ok (Some info))
        /\ gi_oid info = "X"
        /\ _ids st'.2 = [("/", "root"); ("/a", "X"); ("/b", "X")]
        /\ ~ one_path_per_oid (_ids st'.2)).
Proof.
  split.
  - apply one_path_per_oidb_true. reflexivity.
  - eexists _, _. split; [vm_compute; reflexivity|]. simpl.
    split_and!; [done..|].
    intros H. specialize (H "/a" "/b" "X").
    discriminate H; [apply list_elem_of_further, list_elem_of_here|].
    apply list_elem_of_further, list_elem_of_further, list_elem_of_here.
Qed.

(** The same without any change on Drive.  [_path_oid] builds the path
    of a child of the root as [ppath + "/" + name] with [ppath = "/"],
    and caches the folder ["A"] under ["//a"]; [info_path("/a")] then
    caches it under ["/a"] as well. *)
Lemma path_oid_then_info_path_cache_two_paths :
  exists st1 st2 info,
    _path_oid TestDrive.api 2 "A" (RenameFacts.drive_with_folder, TestDrive.connected)
      = Some (st1, Ok (Some "//a"))
    /\ info_path TestDrive.api "/a" st1 = Some (st2, Ok (Some info))
    /\ gi_oid info = "A"
    /\ _ids st2.2 = [("/", "root"); ("//a", "A"); ("/a", "A")].
Proof.
  do 3 eexists. split; [vm_compute; reflexivity|].
  split; [vm_compute; reflexivity|]. by split.
Qed.

End CacheFacts.

(** * Making directories and deleting on Drive *)
Module DriveOpsFacts.
Import GDrive.

(** C9 at its failing input.  On a connected provider, [mkdir("/d")]
    has Drive create the folder and caches its id, and then returns
    [None]: the method has no [return]. *)
Theorem gdrive_mkdir_returns_none :
  mkdir TestDrive.api "/d" (RenameFacts.drive_with_folder, TestDrive.connected)
  = Some ((TestDrive.logged RenameFacts.drive_with_folder
             (TestDrive.WCreateFolder "d" (Some "root")),
           with_ids TestDrive.connected [("/", "root"); ("/d", "id-of-d")]),
          Ok None).
Proof. vm_compute. reflexivity. Qed.

(** Whatever Drive answers, a [mkdir] that returns returns [None]. *)
Lemma gdrive_mkdir_never_returns_oid {W} (api : DriveAPI W) path st st' r :
  mkdir api path st = Some (st', Ok r) -> r = None.
Proof.
  unfold mkdir. intros H.
  apply GDriveFacts.bind_inv in H as [(st1 & pid & _ & H)|(e & _ & ?)]; [|done].
  apply GDriveFacts.bind_inv in H as [(st2 & fileid & _ & H)|(e & _ & ?)]; [|done].
  apply GDriveFacts.bind_inv in H as [(st3 & [] & _ & H)|(e & _ & ?)]; [|done].
  by injection H as _ <-.
Qed.

(** [delete] of an oid Drive does not know: the 404 comes back as
    [CloudFileNotFoundError]. *)
Lemma gdrive_delete_absent_raises :
  _info_oid TestDrive.api "gone" (RenameFacts.drive_with_folder, TestDrive.connected)
  = Some ((RenameFacts.drive_with_folder, TestDrive.connected), Ok None)
  /\ delete TestDrive.api "gone" (RenameFacts.drive_with_folder, TestDrive.connected)
     = Some ((RenameFacts.drive_with_folder, TestDrive.connected),
             Raise CloudFileNotFoundError).
Proof. split; vm_compute; reflexivity. Qed.

End DriveOpsFacts.

(** * The registry *)
Module RegistryFacts.
Import Registry.

(** C10.  For a registered name, [create_provider(name, *args, **kws)]
    calls the registered constructor with [args] followed by the keys of
    [kws] as positional arguments and with no keyword argument: the
    values of [kws] are dropped.  The registry is unchanged. *)
Theorem create_provider_passes_keys_positionally {R : Type}
    (modules : list (string * option (@Prov R))) (providers : list (string * @Prov R))
    (name : string) (prov : @Prov R) (args : list Value) (kws : list (string * Value)) :
  Dict.get providers name = Some prov ->
  create_provider modules name args kws providers
  = (providers,
     Ok (construct prov (mkCall (args ++ (VStr <$> Dict.keys kws)) []))).
Proof.
  intros Hreg. unfold create_provider, provider_by_name, Dict.mem.
  by rewrite Hreg, Hreg.
Qed.

(** A constructor that reports the call it received. *)
Definition echo : @Prov Call := mkProv "mock" (fun c => c).

Lemma create_provider_passes_keys_positionally_witness :
  create_provider [] "mock" [VObject 7]
    [("sync_root", VStr "/"); ("case_sensitive", VObject 1)] [("mock", echo)]
  = ([("mock", echo)],
     Ok (mkCall [VObject 7; VStr "sync_root"; VStr "case_sensitive"] [])).
Proof.
  apply (create_provider_passes_keys_positionally [] [("mock", echo)] "mock" echo).
  reflexivity.
Defined.

End RegistryFacts.

(** * The ascents through the parents *)
Module AscentFacts.
Import GDrive.

Section Provider.
Context {W : Type}.
Variable api : DriveAPI W.

(** The parent [_path_oid] moves to from [oid]: the first of the parents
    Drive reports, when it also reports a name. *)
Definition first_parent (w : W) (oid : string) : option string :=
  match files_get api w oid with
  | HOk (mkMeta (Some (String _ _)) _ (Some (pid0 :: _))) => Some pid0
  | _ => None
  end.

(** [parent_chain w ids oid d]: following first parents from [oid]
    reaches after [d] hops an oid that the cache [ids] holds or that has
    no first parent. *)
Inductive parent_chain (w : W) (ids : list (string * string)) : string -> nat -> Prop :=
  | chain_cached oid p :
      find_path ids oid = Some p -> parent_chain w ids oid 0
  | chain_end oid :
      find_path ids oid = None -> first_parent w oid = None ->
      parent_chain w ids oid 0
  | chain_hop oid pid0 d :
      find_path ids oid = None -> first_parent w oid = Some pid0 ->
      parent_chain w ids pid0 d ->
      parent_chain w ids oid (S d).

(** [suboid_chain top st oid d]: the ascent of [is_suboid] from [oid]
    in state [st] meets [top], a parent equal to its child or an
    exception after [d] hops. *)
Inductive suboid_chain (top : string) : W * GDriveProvider -> option string -> nat -> Prop :=
  | suboid_top st oid :
      Some top = oid -> suboid_chain top st oid 0
  | suboid_raises st oid st' e :
      Some top <> oid -> get_parent_id api oid st = Some (st', Raise e) ->
      suboid_chain top st oid 0
  | suboid_fixed st oid st' :
      Some top <> oid -> get_parent_id api oid st = Some (st', Ok oid) ->
      suboid_chain top st oid 0
  | suboid_hop st oid st' pid d :
      Some top <> oid -> get_parent_id api oid st = Some (st', Ok pid) ->
      pid <> oid -> suboid_chain top st' pid d ->
      suboid_chain top st oid (S d).

Lemma path_oid_returns_from w g oid d :
  parent_chain w (_ids g) oid d ->
  exists st' r, _path_oid api (S d) oid (w, g) = Some (st', r).
Proof.
  induction 1 as [oid p Hf|oid Hf Hp|oid pid0 d Hf Hp _ IH].
  - cbn. unfold bind, self; cbn. rewrite Hf. by eexists _, _.
  - cbn. unfold _info_oid, or_none, _api, reading, bind, self; cbn. rewrite Hf.
    unfold first_parent in Hp.
    destruct (client g); cbn; [|by eexists _, _].
    destruct (files_get api w oid) as [[[[|c nm]|] md [[|p ps]|]]| | | | |];
      cbn; try discriminate Hp; by eexists _, _.
  - destruct IH as (st' & r & IH). remember (S d) as k eqn:Hk. clear Hk.
    cbn. unfold _info_oid, or_none, _api, reading, bind, self; cbn. rewrite Hf.
    unfold first_parent in Hp.
    destruct (client g); cbn; [|by eexists _, _].
    destruct (files_get api w oid) as [[[[|c nm]|] md [[|p ps]|]]| | | | |];
      cbn; try discriminate Hp.
    injection Hp as ->. rewrite IH.
    destruct r as [[[|c' pp]|]|e]; by eexists _, _.
Qed.

Lemma path_oid_returns st oid d :
  parent_chain st.1 (_ids st.2) oid d ->
  exists st' r, _path_oid api (S d) oid st = Some (st', r).
Proof. destruct st as [w g]. apply path_oid_returns_from. Qed.

Lemma is_suboid_returns top st oid d :
  suboid_chain top st oid d ->
  exists st' r, is_suboid api (S d) top oid st = Some (st', r).
Proof.
  induction 1 as [st oid Ht|st oid st' e Ht Hg|st oid st' Ht Hg
                 |st oid st' pid d Ht Hg Hne _ IH].
  - simpl. rewrite decide_True by done. by eexists _, _.
  - simpl. rewrite decide_False by done. unfold bind. rewrite Hg. by eexists _, _.
  - simpl. rewrite decide_False by done. unfold bind. rewrite Hg.
    rewrite decide_True by done. by eexists _, _.
  - destruct IH as (st'' & r & IH). remember (S d) as k eqn:Hk. clear Hk.
    simpl. rewrite decide_False by done. unfold bind. rewrite Hg.
    rewrite decide_False by done. by eexists _, _.
Qed.

End Provider.

(** C6 (amended).  Neither ascent has a bound on its steps or a check
    for cycles; each returns when the chain it follows is finite:
    [_path_oid(oid)] returns within [d + 1] calls when following first
    parents from [oid] reaches after [d] hops an oid that is cached or
    has no first parent, and [is_suboid(top, oid)] returns within
    [d + 1] calls when its ascent through [get_parent_id] meets [top], a
    parent equal to its child or an exception after [d] hops. *)
Theorem ascents_return_on_finite_chains :
  (forall W (api : DriveAPI W) st oid d,
      parent_chain api st.1 (_ids st.2) oid d ->
      exists st' r, _path_oid api (S d) oid st = Some (st', r))
  /\ (forall W (api : DriveAPI W) top st oid d,
        suboid_chain api top st oid d ->
        exists st' r, is_suboid api (S d) top oid st = Some (st', r)).
Proof.
  split; intros.
  - by apply path_oid_returns.
  - by apply is_suboid_returns.
Qed.

Lemma ascents_return_on_finite_chains_witness :
  (exists st' r,
     _path_oid TestDrive.api 2 "A" (RenameFacts.drive_with_folder, TestDrive.connected)
     = Some (st', r))
  /\ (exists st' r,
        is_suboid TestDrive.api 2 "root" (Some "A")
          (RenameFacts.drive_with_folder, TestDrive.connected) = Some (st', r)).
Proof.
  split.
  - apply (proj1 ascents_return_on_finite_chains).
    apply (chain_hop _ _ _ "A" "root" 0); [reflexivity | reflexivity |].
    by apply (chain_cached _ _ _ "root" "/").
  - apply (proj2 ascents_return_on_finite_chains).
    apply (suboid_hop _ _ _ (Some "A")
             (RenameFacts.drive_with_folder, TestDrive.connected) None 0);
      [discriminate | vm_compute; reflexivity | discriminate |].
    apply (suboid_fixed _ _ _ None
             (RenameFacts.drive_with_folder, TestDrive.connected));
      [discriminate | vm_compute; reflexivity].
Defined.

(** On Drive the folders ["A"] and ["B"] are each the parent of the
    other. *)
Definition cyclic_drive : TestDrive.Drive :=
  TestDrive.mkDrive
    [("A", mkMeta (Some "a") None (Some ["B"]));
     ("B", mkMeta (Some "b") None (Some ["A"]))] [] [] [].

Lemma path_oid_on_cycle n :
  _path_oid TestDrive.api n "A" (cyclic_drive, TestDrive.connected) = None
  /\ _path_oid TestDrive.api n "B" (cyclic_drive, TestDrive.connected) = None.
Proof.
  induction n as [|n [IHA IHB]]; [done|].
  split; simpl; unfold _info_oid, or_none, _api, reading, bind, self; simpl;
    [by rewrite IHB | by rewrite IHA].
Qed.

(** C6, counterexample.  With a cycle among the parents, [_path_oid]
    does not return, whatever depth of recursion it is allowed. *)
Lemma path_oid_never_returns_on_cycle :
  ~ exists n st' r,
      _path_oid TestDrive.api n "A" (cyclic_drive, TestDrive.connected)
      = Some (st', r).
Proof.
  intros (n & st' & r & H). by rewrite (proj1 (path_oid_on_cycle n)) in H.
Qed.

End AscentFacts.

(** * The change feeds and their cursors *)
Module FeedFacts.

Section MockFeed.
Import Mock.

(** The feed is as [_register_event] keeps it: [_latest_event] is the
    index of the last event, and the cursor is at [-1] or further. *)
Definition feed_ok (m : MockProvider) : Prop :=
  (-1 <= _cursor m)%Z
  /\ _latest_event m = (Z.of_nat (length (_events m)) - 1)%Z.

(** The events beyond the cursor, translated. *)
Definition remaining (m : MockProvider) : list Event :=
  _translate_event <$> drop (Z.to_nat (_cursor m + 1)) (_events m).

Lemma with_cursor_same m : with_cursor m (_cursor m) = m.
Proof. by destruct m. Qed.

Lemma py_index_nonneg {A} (l : list A) (i : Z) x :
  (0 <= i)%Z -> l !! Z.to_nat i = Some x -> py_index l i = Ok x.
Proof.
  intros Hi Hx. unfold py_index.
  destruct (decide (i < 0)%Z); [lia|].
  destruct (decide (0 <= i)%Z); [|lia]. by rewrite Hx.
Qed.

Lemma remaining_length m : feed_ok m -> length (remaining m) = pending m.
Proof.
  intros [Hc Hl]. unfold remaining, pending.
  rewrite length_fmap, length_drop, Hl. lia.
Qed.

Lemma events_take_spec n m :
  feed_ok m ->
  events_take n m
  = (with_cursor m (_cursor m + Z.of_nat (min n (pending m))), take n (remaining m)).
Proof.
  revert m. induction n as [|n IH]; intros m Hok.
  - simpl. rewrite Z.add_0_r, with_cursor_same. done.
  - pose proof Hok as [Hc Hl]. cbn [events_take]. unfold events_next.
    destruct (decide (_cursor m < _latest_event m)%Z) as [Hlt|Hge].
    + assert (Hidx : is_Some (_events m !! Z.to_nat (_cursor m + 1))).
      { apply lookup_lt_is_Some. lia. }
      destruct Hidx as [pe Hpe]. cbn [_cursor _events with_cursor].
      rewrite (py_index_nonneg _ _ pe) by (done || lia).
      rewrite IH by (split; simpl; lia).
      set (m1 := with_cursor m (_cursor m + 1)).
      assert (Hrem : remaining m = _translate_event pe :: remaining m1).
      { unfold remaining. rewrite (drop_S _ pe _ Hpe). simpl.
        do 3 f_equal. lia. }
      assert (Hpend : pending m = S (pending m1)).
      { unfold pending. simpl. lia. }
      rewrite Hrem.
      replace (min (S n) (pending m)) with (S (min n (pending m1))) by lia.
      change (take (S n) (_translate_event pe :: remaining m1))
        with (_translate_event pe :: take n (remaining m1)).
      f_equal. unfold with_cursor, m1; simpl. f_equal. lia.
    + assert (Hp0 : pending m = 0) by (unfold pending; lia).
      assert (Hr0 : remaining m = []).
      { unfold remaining. by rewrite drop_ge by lia. }
      rewrite Hp0, Hr0, Nat.min_0_r, Z.add_0_r, with_cursor_same. done.
Qed.



End MockFeed.
End FeedFacts.

(** * The cursor of the Drive provider *)
Module CursorFacts.
Import GDrive.

Section Provider.
Context {W : Type}.
Variable api : DriveAPI W.

Local Abbreviation Run := (@M W).


























End Provider.
End CursorFacts.

(** * Cursors and consumption *)
Module FeedTheorems.






End FeedTheorems.

(** * Directories in the in-memory provider *)
Module MkdirFacts.
Import Mock.

Lemma mock_mkdir_returns_directory_oid_witness :
  exists m' oid_made info,
    mkdir 3 "/d" RenameOverFacts.file_and_directory = (m', Ok oid_made)
    /\ info_path MockFacts.digest_stub m' "/d" = Ok (Some info)
    /\ oid info = oid_made
    /\ otype info = DIRECTORY.
Proof.
  apply (MockFacts.mock_mkdir_returns_directory_oid MockFacts.digest_stub
           RenameOverFacts.file_and_directory 3 "/d"); [reflexivity|].
  intros a o Hg _. vm_compute in Hg. by injection Hg as _ <-.
Defined.

End MkdirFacts.

(** * More of the in-memory provider: uploads and the shape of the store *)
Module MockStore.
Import Mock.

(** [upload(oid, file_like)]. *)
Definition upload (md5 : bytes -> bytes) (oid : string) (file_like : bytes)
    (m : MockProvider) : MockProvider * Result OInfo :=
  match _get_by_oid m oid with
  | Some (a, file) =>
      if o_exists file then
        match o_type file with
        | MOCK_DIR => (m, Raise CloudFileExistsError)
        | MOCK_FILE =>
            let m1 := update_obj m a (set_contents file_like) in
            let file' := set_contents file_like file in
            (_register_event ACTION_UPDATE file' m1, to_oinfo md5 file')
        end
      else (m, Raise CloudFileNotFoundError)
  | None => (m, Raise CloudFileNotFoundError)
  end.

(** [upload] and [create] with a stream that may fail: [file_like] is
    the outcome of [file_like.read()], the bytes read or the exception
    raised (a closed stream raises [ValueError]).  [upload] reads before
    it assigns; [create] stores the object it constructs and reads
    afterwards. *)
Definition upload_reading (md5 : bytes -> bytes) (oid : string)
    (file_like : Result bytes) (m : MockProvider) : MockProvider * Result OInfo :=
  match _get_by_oid m oid with
  | Some (a, file) =>
      if o_exists file then
        match o_type file with
        | MOCK_DIR => (m, Raise CloudFileExistsError)
        | MOCK_FILE =>
            match file_like with
            | Raise e => (m, Raise e)
            | Ok contents =>
                let m1 := update_obj m a (set_contents contents) in
                let file' := set_contents contents file in
                (_register_event ACTION_UPDATE file' m1, to_oinfo md5 file')
            end
        end
      else (m, Raise CloudFileNotFoundError)
  | None => (m, Raise CloudFileNotFoundError)
  end.

Definition create_reading (md5 : bytes -> bytes) (new_id : N) (path : string)
    (file_like : Result bytes) (m : MockProvider) : MockProvider * Result OInfo :=
  let file := _get_by_path m path in
  if live file then (m, Raise CloudFileExistsError)
  else
    match _verify_parent_folder_exists m path with
    | Raise e => (m, Raise e)
    | Ok _ =>
        let '(m1, a) :=
          match file with
          | Some (a, _) =>
              if _recycle_oid m then (m, a)
              else
                let fo := new_object new_id path MOCK_FILE in
                (_store_object new_id fo (with_heap m (<[new_id := fo]> (heap m))), new_id)
          | None =>
              let fo := new_object new_id path MOCK_FILE in
              (_store_object new_id fo (with_heap m (<[new_id := fo]> (heap m))), new_id)
          end in
        match file_like with
        | Raise e => (m1, Raise e)
        | Ok contents =>
            let m2 := update_obj m1 a (fun o => set_exists true (set_contents contents o)) in
            match heap m2 !! a with
            | Some o =>
                let m3 := _register_event ACTION_CREATE o m2 in
                (m3, to_oinfo md5 o)
            | None => (m2, Raise AttributeError)
            end
        end
    end.

(** [hash_oid(oid)]. *)
Definition hash_oid (md5 : bytes -> bytes) (oid : string) (m : MockProvider)
    : Result (option bytes) :=
  match _get_by_oid m oid with
  | Some (_, file) => if o_exists file then o_hash md5 file else Ok None
  | None => Ok None
  end.

Section WithHash.
Variable md5 : bytes -> bytes.

(** [upload] replaces the contents of an existing file: the [OInfo] it
    returns carries the same oid and path and the digest of the new
    contents, one update event is logged, and [download] of the oid then
    gives the new contents. *)
Theorem upload_then_download m oid a file content sink :
  _get_by_oid m oid = Some (a, file) ->
  o_exists file = true -> o_type file = MOCK_FILE ->
  exists m',
    upload md5 oid content m
      = (m', Ok (mkOInfo FILE (o_oid file) (Some (md5 content)) (o_path file)))
    /\ download oid sink m' = Ok (sink ++ content)
    /\ hash_oid md5 oid m' = Ok (Some (md5 content))
    /\ _events m' = _events m
         ++ [mkMockEvent ACTION_UPDATE (set_contents content file)].
Proof.
  intros Hg Hex Hty. unfold upload. rewrite Hg, Hex, Hty.
  eexists. split.
  { unfold to_oinfo, o_hash, o_otype; simpl. by rewrite Hty. }
  assert (Hg' : _get_by_oid
            (_register_event ACTION_UPDATE (set_contents content file)
               (update_obj m a (set_contents content))) oid
          = Some (a, set_contents content file)).
  { unfold _get_by_oid, deref in *; simpl.
    destruct (Dict.get (_fs_by_oid m) oid) as [a'|]; [|done]. simpl in *.
    destruct (heap m !! a') as [o'|] eqn:Hh; [|done]. simpl in Hg.
    simplify_eq. by rewrite lookup_alter_eq, Hh. }
  split_and!.
  - unfold download. rewrite Hg'. simpl. by rewrite Hex.
  - unfold hash_oid. rewrite Hg'. simpl. rewrite Hex. unfold o_hash; simpl.
    by rewrite Hty.
  - done.
Qed.

(** With a stream that is read, the two definitions are [upload] and
    [create]. *)
Lemma reading_ok oid new_id path content m :
  upload_reading md5 oid (Ok content) m = upload md5 oid content m
  /\ create_reading md5 new_id path (Ok content) m = create md5 new_id path content m.
Proof.
  split; [done|]. unfold create_reading, create.
  destruct (live (_get_by_path m path)); [done|].
  destruct (_verify_parent_folder_exists m path) as [[]|e0]; [|done].
  destruct (_get_by_path m path) as [[a o]|]; [|done].
  by destruct (_recycle_oid m).
Qed.

(** [mkdir] and [upload] are all or nothing: when one of them raises, a
    failed read of the stream included, the provider is exactly as it
    was.  So is [create] when the stream is read.  But [create] stores
    the object it constructs before it reads the stream: when the read
    raises, on a free path for which an object is constructed, the
    exception comes out of [create] and the object stays: it exists, is
    found at the path, has no contents, and no event tells of it. *)
Theorem failed_read_leaves_created_object m :
  (forall new_id path m' e, mkdir new_id path m = (m', Raise e) -> m' = m)
  /\ (forall oid file_like m' e,
        upload_reading md5 oid file_like m = (m', Raise e) -> m' = m)
  /\ (forall new_id path content m' e,
        create_reading md5 new_id path (Ok content) m = (m', Raise e) -> m' = m)
  /\ (forall new_id path e,
        exists_path m path = false ->
        _verify_parent_folder_exists m path = Ok () ->
        _recycle_oid m = false \/ _get_by_path m path = None ->
        exists m',
          create_reading md5 new_id path (Raise e) m = (m', Raise e)
          /\ exists_path m' path = true
          /\ _get_by_path m' path = Some (new_id, new_object new_id path MOCK_FILE)
          /\ o_contents (new_object new_id path MOCK_FILE) = None
          /\ _events m' = _events m)
  /\ (forall new_id path e a o m' e',
        _get_by_path m path = Some (a, o) -> _recycle_oid m = true ->
        create_reading md5 new_id path (Raise e) m = (m', Raise e') -> m' = m).
Proof.
  split_and!.
  - intros new_id path m' e. unfold mkdir.
    destruct (_verify_parent_folder_exists m path) as [[]|e0]; [|by intros [= <- _]].
    destruct (_get_by_path m path) as [[a o]|]; [|done].
    destruct (o_exists o); [|done].
    destruct (o_type o); [by intros [= <- _] | done].
  - intros oid file_like m' e. unfold upload_reading.
    destruct (_get_by_oid m oid) as [[a o]|]; [|by intros [= <- _]].
    destruct (o_exists o); [|by intros [= <- _]].
    destruct (o_type o) eqn:Hty; [|by intros [= <- _]].
    destruct file_like as [content|e0]; [|by intros [= <- _]].
    unfold to_oinfo, o_hash; simpl. by rewrite Hty.
  - intros new_id path content m' e. unfold create_reading.
    destruct (live (_get_by_path m path)); [by intros [= <- _]|].
    destruct (_verify_parent_folder_exists m path) as [[]|e0]; [|by intros [= <- _]].
    set (fo := new_object new_id path MOCK_FILE).
    destruct (_get_by_path m path) as [[a o]|] eqn:Hg.
    + destruct (_recycle_oid m).
      * unfold _get_by_path, deref in Hg.
        destruct (Dict.get (_fs_by_path m) path) as [a'|]; [|done]. simpl in Hg.
        destruct (heap m !! a') as [o'|] eqn:Hh; [|done]. simpl in Hg. simplify_eq.
        unfold update_obj at 1; simpl. rewrite lookup_alter_eq, Hh. simpl.
        unfold to_oinfo, o_hash; simpl. by destruct (o_type o).
      * simpl. rewrite lookup_alter_eq, lookup_insert_eq. simpl. done.
    + simpl. rewrite lookup_alter_eq, lookup_insert_eq. simpl. done.
  - intros new_id path e Hfree Hver Hnew. unfold create_reading.
    unfold exists_path in Hfree. rewrite Hfree, Hver.
    set (fo := new_object new_id path MOCK_FILE).
    assert (Hbranch :
      match _get_by_path m path with
      | Some (a, _) =>
          if _recycle_oid m then (m, a)
          else (_store_object new_id fo (with_heap m (<[new_id := fo]> (heap m))), new_id)
      | None => (_store_object new_id fo (with_heap m (<[new_id := fo]> (heap m))), new_id)
      end = (_store_object new_id fo (with_heap m (<[new_id := fo]> (heap m))), new_id)).
    { destruct Hnew as [Hr|Hn]; [rewrite Hr | rewrite Hn]; [|done].
      by destruct (_get_by_path m path) as [[? ?]|]. }
    cbv zeta. rewrite Hbranch. eexists. split; [reflexivity|].
    unfold exists_path, _get_by_path, deref; simpl.
    rewrite Dict.get_set_eq. simpl. rewrite lookup_insert_eq. done.
  - intros new_id path e a o m' e' Hg Hrec. unfold create_reading.
    rewrite Hg, Hrec. simpl.
    destruct (o_exists o); [by intros [= <- _]|].
    destruct (_verify_parent_folder_exists m path) as [[]|e0]; by intros [= <- _].
Qed.

End WithHash.

(** ** The shape of the store

    What the two dictionaries and the objects they share look like in
    every provider that the operations build. *)
Record well_formed (m : MockProvider) : Prop := mkWf {
  (** every object is registered under its own oid, [str(id(obj))], and
      an existing object is registered under its path *)
  wf_heap : forall a o, heap m !! a = Some o ->
      o_oid o = pretty a
      /\ Dict.get (_fs_by_oid m) (pretty a) = Some a
      /\ (o_exists o = true -> Dict.get (_fs_by_path m) (o_path o) = Some a);
  (** [_fs_by_oid] holds objects under their oid *)
  wf_by_oid : forall k a, Dict.get (_fs_by_oid m) k = Some a ->
      k = pretty a /\ is_Some (heap m !! a);
  (** [_fs_by_path] holds objects under their path *)
  wf_by_path : forall k a, Dict.get (_fs_by_path m) k = Some a ->
      exists o, heap m !! a = Some o /\ o_path o = k;
  (** the cursor is within the event log *)
  wf_feed : (-1 <= _cursor m <= _latest_event m)%Z
            /\ _latest_event m = (Z.of_nat (length (_events m)) - 1)%Z
}.

Lemma wf_empty sync_root recycle : well_formed (empty sync_root recycle).
Proof.
  split; simpl; [| done | done | lia].
  intros a o H. by rewrite lookup_empty in H.
Qed.

Lemma wf_register_event act o m :
  well_formed m -> well_formed (_register_event act o m).
Proof.
  intros [Hh Ho Hp [Hc Hl]]. split; simpl; try done.
  rewrite length_app. simpl. lia.
Qed.

Lemma wf_with_cursor m c :
  well_formed m -> (-1 <= c <= _latest_event m)%Z -> well_formed (with_cursor m c).
Proof. intros [Hh Ho Hp [Hc Hl]] Hc'. by split. Qed.

(** An assignment to attributes of a stored object that keeps its oid
    and path, and that makes it exist only if it is registered under its
    path. *)
Lemma wf_update_obj m a o f :
  well_formed m -> heap m !! a = Some o ->
  o_oid (f o) = o_oid o -> o_path (f o) = o_path o ->
  (o_exists (f o) = true -> Dict.get (_fs_by_path m) (o_path o) = Some a) ->
  well_formed (update_obj m a f).
Proof.
  intros [Hh Ho Hp Hf] Ha Hoid Hpath Hlive. split; simpl; [| | |done].
  - intros b ob. destruct (decide (a = b)) as [<-|Hne].
    + rewrite lookup_alter_eq, Ha. simpl. intros [= <-].
      destruct (Hh a o Ha) as (H1 & H2 & H3).
      rewrite Hoid, Hpath. split_and!; [done..|by intros; apply Hlive].
    + rewrite lookup_alter_ne by done. apply Hh.
  - intros k b Hk. destruct (Ho k b Hk) as [-> [ob Hob]]. split; [done|].
    destruct (decide (a = b)) as [<-|Hne].
    + rewrite lookup_alter_eq, Ha. by eexists.
    + rewrite lookup_alter_ne by done. by eexists.
  - intros k b Hk. destruct (Hp k b Hk) as (ob & Hob & Hpk).
    destruct (decide (a = b)) as [<-|Hne].
    + rewrite lookup_alter_eq, Ha. simplify_eq. eexists. split; [done|]. done.
    + rewrite lookup_alter_ne by done. by eexists.
Qed.

(** A newly constructed object, stored under a path that no existing
    object holds. *)
Lemma wf_store_new m new_id path t :
  well_formed m -> heap m !! new_id = None ->
  live (_get_by_path m path) = false ->
  well_formed (_store_object new_id (new_object new_id path t)
                 (with_heap m (<[new_id := new_object new_id path t]> (heap m)))).
Proof.
  intros [Hh Ho Hp Hf] Hfresh Hfree. split; simpl; [| | |done].
  - intros b ob. destruct (decide (new_id = b)) as [<-|Hne].
    + rewrite lookup_insert_eq. intros [= <-]. simpl.
      rewrite !Dict.get_set_eq. done.
    + rewrite lookup_insert_ne by done. intros Hb.
      destruct (Hh b ob Hb) as (H1 & H2 & H3). split; [done|]. split.
      * rewrite Dict.get_set_ne; [done|]. intros E. by apply (inj pretty) in E.
      * intros Hex. specialize (H3 Hex).
        rewrite Dict.get_set_ne; [done|]. intros ->.
        unfold _get_by_path, deref in Hfree. rewrite H3 in Hfree. simpl in Hfree.
        rewrite Hb in Hfree. simpl in Hfree. congruence.
  - intros k b. destruct (decide (pretty new_id = k)) as [<-|Hne].
    + rewrite Dict.get_set_eq. intros [= <-]. split; [done|].
      rewrite lookup_insert_eq. by eexists.
    + rewrite Dict.get_set_ne by done. intros Hk.
      destruct (Ho k b Hk) as [-> [ob Hob]]. split; [done|].
      rewrite lookup_insert_ne; [by eexists|]. intros <-. congruence.
  - intros k b. destruct (decide (path = k)) as [<-|Hne].
    + rewrite Dict.get_set_eq. intros [= <-].
      rewrite lookup_insert_eq. by eexists.
    + rewrite Dict.get_set_ne by done. intros Hk.
      destruct (Hp k b Hk) as (ob & Hob & Hpk).
      rewrite lookup_insert_ne; [by eexists|]. intros <-. congruence.
Qed.

Lemma deref_inv m r a o :
  deref m r = Some (a, o) -> r = Some a /\ heap m !! a = Some o.
Proof.
  unfold deref. destruct r as [a'|]; [|done]. simpl.
  destruct (heap m !! a') as [o'|] eqn:Hh; [|done]. simpl. by intros [= <- <-].
Qed.

Lemma wf_delete m oid : well_formed m -> well_formed (delete oid m).1.
Proof.
  intros Hwf. unfold delete.
  destruct (_get_by_oid m oid) as [[a o]|] eqn:Hg; [|done].
  destruct (o_exists o); [|done]. simpl.
  apply deref_inv in Hg as [_ Hh].
  apply wf_register_event. by eapply wf_update_obj.
Qed.


Lemma wf_create md5 m new_id path content :
  well_formed m -> heap m !! new_id = None ->
  well_formed (create md5 new_id path content m).1.
Proof.
  intros Hwf Hfresh. unfold create.
  destruct (live (_get_by_path m path)) eqn:Hfree; [done|].
  destruct (_verify_parent_folder_exists m path) as [[]|e0]; [|done].
  set (fo := new_object new_id path MOCK_FILE).
  set (f := fun o => set_exists true (set_contents content o)).
  assert (Hnew : well_formed
            (update_obj (_store_object new_id fo
                           (with_heap m (<[new_id := fo]> (heap m)))) new_id f)).
  { eapply (wf_update_obj _ _ fo); [by apply wf_store_new| | done | done |].
    - simpl. by rewrite lookup_insert_eq.
    - intros _. simpl. by rewrite Dict.get_set_eq. }
  assert (Hnewh : heap (update_obj (_store_object new_id fo
                           (with_heap m (<[new_id := fo]> (heap m)))) new_id f)
                    !! new_id = Some (f fo)).
  { simpl. by rewrite lookup_alter_eq, lookup_insert_eq. }
  destruct (_get_by_path m path) as [[a o]|] eqn:Hg.
  - destruct (_recycle_oid m).
    + apply deref_inv in Hg as [Hd Hh].
      destruct (wf_by_path m Hwf path a Hd) as (o' & Ho' & Hp'). simplify_eq.
      assert (Hrec : well_formed (update_obj m a f)).
      { eapply wf_update_obj; [done..|]. by intros _. }
      simpl. rewrite lookup_alter_eq, Hh. simpl. by apply wf_register_event.
    + cbv zeta. rewrite Hnewh. simpl. by apply wf_register_event.
  - cbv zeta. rewrite Hnewh. simpl. by apply wf_register_event.
Qed.

Lemma wf_mkdir m new_id path :
  well_formed m -> heap m !! new_id = None ->
  well_formed (mkdir new_id path m).1.
Proof.
  intros Hwf Hfresh. unfold mkdir.
  destruct (_verify_parent_folder_exists m path) as [[]|e0]; [|done].
  destruct (_get_by_path m path) as [[a o]|] eqn:Hg.
  - destruct (o_exists o) eqn:Hex; [by destruct (o_type o)|]. simpl.
    apply wf_register_event, wf_store_new; [done..|].
    unfold live. by rewrite Hg.
  - simpl. apply wf_register_event, wf_store_new; [done..|].
    unfold live. by rewrite Hg.
Qed.

Lemma wf_events_take n m :
  well_formed m -> well_formed (events_take n m).1.
Proof.
  intros Hwf. destruct (wf_feed m Hwf) as [Hc Hl].
  rewrite FeedFacts.events_take_spec by (split; [lia|done]). simpl.
  apply wf_with_cursor; [done|]. unfold pending. lia.
Qed.



Lemma wf_init root_id sync_root recycle :
  well_formed (init root_id sync_root recycle).
Proof.
  unfold init, events_all. apply wf_events_take, wf_mkdir; [apply wf_empty|done].
Qed.

Lemma events_all_spec m :
  well_formed m ->
  events_all m = (with_cursor m (_latest_event m), FeedFacts.remaining m).
Proof.
  intros Hwf. destruct (wf_feed m Hwf) as [Hc Hl].
  assert (Hok : FeedFacts.feed_ok m) by (split; [lia|done]).
  unfold events_all. rewrite FeedFacts.events_take_spec by done. f_equal.
  - f_equal. unfold pending. lia.
  - apply take_ge. by rewrite FeedFacts.remaining_length.
Qed.

Lemma events_all_drained m :
  well_formed m -> _cursor m = _latest_event m -> events_all m = (m, []).
Proof.
  intros Hwf Hdr. rewrite (events_all_spec m Hwf).
  rewrite <- Hdr, FeedFacts.with_cursor_same. f_equal.
  destruct (wf_feed m Hwf) as [Hc Hl].
  unfold FeedFacts.remaining. rewrite drop_ge by lia. done.
Qed.

Section Consequences.
Variable md5 : bytes -> bytes.



(** In a consistent store the two lookups describe the same objects:
    what [info_path] finds at a path is what [info_oid] finds under the
    oid it reports, and the other way round. *)
Theorem info_path_and_info_oid_agree m p k i :
  well_formed m ->
  (info_path md5 m p = Ok (Some i) ->
     path i = p /\ info_oid md5 m (oid i) = Ok (Some i))
  /\ (info_oid md5 m k = Ok (Some i) ->
     oid i = k /\ info_path md5 m (path i) = Ok (Some i)).
Proof.
  intros Hwf. split.
  - unfold info_path.
    destruct (_get_by_path m p) as [[a o]|] eqn:Hg; [|done].
    destruct (o_exists o) eqn:Hex; [|done].
    destruct (to_oinfo md5 o) as [i'|e] eqn:Hi; [|done]. intros [= <-].
    apply deref_inv in Hg as [Hd Hh].
    destruct (wf_by_path m Hwf p a Hd) as (o' & Ho' & Hp'). simplify_eq.
    destruct (wf_heap m Hwf a o Hh) as (Hoid & Hoa & _).
    assert (Hio : oid i' = o_oid o /\ path i' = o_path o).
    { unfold to_oinfo in Hi. destruct (o_hash md5 o); by simplify_eq. }
    destruct Hio as [Hio Hip]. split; [done|].
    unfold info_oid, _get_by_oid, deref. rewrite Hio, Hoid, Hoa. simpl.
    rewrite Hh. simpl. by rewrite Hex, Hi.
  - unfold info_oid.
    destruct (_get_by_oid m k) as [[a o]|] eqn:Hg; [|done].
    destruct (o_exists o) eqn:Hex; [|done].
    destruct (to_oinfo md5 o) as [i'|e] eqn:Hi; [|done]. intros [= <-].
    apply deref_inv in Hg as [Hd Hh].
    destruct (wf_by_oid m Hwf k a Hd) as [-> _].
    destruct (wf_heap m Hwf a o Hh) as (Hoid & Hoa & Hpa). specialize (Hpa Hex).
    assert (Hio : oid i' = o_oid o /\ path i' = o_path o).
    { unfold to_oinfo in Hi. destruct (o_hash md5 o); by simplify_eq. }
    destruct Hio as [Hio Hip]. split; [congruence|].
    unfold info_path, _get_by_path, deref. rewrite Hip, Hpa. simpl.
    rewrite Hh. simpl. by rewrite Hex, Hi.
Qed.

(** [delete] of an existing object: afterwards neither its oid nor its
    path leads to an existing object, [download] raises
    [CloudFileNotFoundError], one delete event has been logged, and a
    second [delete] changes nothing. *)
Theorem delete_makes_absent m k a o sink :
  well_formed m -> _get_by_oid m k = Some (a, o) -> o_exists o = true ->
  exists m',
    delete k m = (m', Ok ())
    /\ exists_oid m' k = false
    /\ exists_path m' (o_path o) = false
    /\ info_oid md5 m' k = Ok None
    /\ info_path md5 m' (o_path o) = Ok None
    /\ download k sink m' = Raise CloudFileNotFoundError
    /\ _events m' = _events m ++ [mkMockEvent ACTION_DELETE (set_exists false o)]
    /\ delete k m' = (m', Ok ()).
Proof.
  intros Hwf Hg Hex. unfold delete at 1. rewrite Hg, Hex.
  eexists. split; [reflexivity|].
  apply deref_inv in Hg as [Hd Hh].
  destruct (wf_heap m Hwf a o Hh) as (Hoid & Hoa & Hpa). specialize (Hpa Hex).
  set (m' := _register_event ACTION_DELETE (set_exists false o)
               (update_obj m a (set_exists false))).
  assert (Hgo : _get_by_oid m' k = Some (a, set_exists false o)).
  { unfold _get_by_oid, deref; simpl. rewrite Hd; simpl.
    by rewrite lookup_alter_eq, Hh. }
  assert (Hgp : _get_by_path m' (o_path o) = Some (a, set_exists false o)).
  { unfold _get_by_path, deref; simpl. rewrite Hpa; simpl.
    by rewrite lookup_alter_eq, Hh. }
  unfold exists_oid, exists_path, info_oid, info_path, download, delete.
  rewrite Hgo, Hgp. done.
Qed.

(** [rename] of an existing file to a path that no existing object
    holds and whose parent exists: the call succeeds, the object keeps
    its oid and contents, the new path and the oid lead to it, the old
    path leads nowhere, and two rename events are logged (one by
    [_rename_single_object], one by [rename]). *)
Theorem rename_file_to_free_path m k a o new_path :
  well_formed m -> _get_by_oid m k = Some (a, o) ->
  o_exists o = true -> o_type o = MOCK_FILE ->
  _verify_parent_folder_exists m new_path = Ok () ->
  exists_path m new_path = false ->
  exists m',
    rename md5 k new_path m = (m', Ok ())
    /\ _get_by_path m' new_path = Some (a, set_path new_path o)
    /\ _get_by_oid m' k = Some (a, set_path new_path o)
    /\ _get_by_path m' (o_path o) = None
    /\ _events m' = _events m ++
         [mkMockEvent ACTION_RENAME (set_path new_path o);
          mkMockEvent ACTION_RENAME (set_path new_path o)].
Proof.
  intros Hwf Hg Hex Hty Hver Hfree. unfold rename. rewrite Hg, Hex. simpl.
  rewrite Hver.
  apply deref_inv in Hg as [Hd Hh].
  destruct (wf_heap m Hwf a o Hh) as (Hoid & Hoa & Hpa). specialize (Hpa Hex).
  destruct (wf_by_oid m Hwf k a Hd) as [-> _].
  assert (Hne : new_path <> o_path o).
  { intros ->. unfold exists_path, _get_by_path, deref in Hfree.
    rewrite Hpa in Hfree. simpl in Hfree. rewrite Hh in Hfree. simpl in Hfree.
    congruence. }
  assert (Hchk : match _get_by_path m new_path with
                 | Some (_, c) =>
                     if o_exists c then
                       if negb (bool_decide (o_type c = o_type o))
                       then Raise CloudFileExistsError
                       else
                         match o_type c with
                         | MOCK_DIR =>
                             match next (listdir md5 m (o_oid c)) with
                             | Ok (Some _) => Raise CloudFileExistsError
                             | Ok None => Ok (delete (o_oid c) m).1
                             | Raise e => Raise e
                             end
                         | MOCK_FILE => Ok (delete (o_oid c) m).1
                         end
                     else Ok m
                 | None => Ok m
                 end = Ok m).
  { unfold exists_path, live in Hfree.
    destruct (_get_by_path m new_path) as [[ca c]|]; [|done]. by rewrite Hfree. }
  rewrite Hchk, Hty.
  unfold _rename_single_object. rewrite Hh.
  unfold _unstore_object, Dict.mem. rewrite Hpa. simpl. rewrite Hoid, Hoa. simpl.
  rewrite lookup_alter_eq, Hh. simpl.
  eexists. split; [reflexivity|].
  unfold _get_by_path, _get_by_oid, deref; simpl. rewrite ?Hoid.
  rewrite !Dict.get_set_eq. simpl. rewrite lookup_alter_eq, Hh. simpl.
  rewrite Dict.get_set_ne, Dict.get_del_eq by done. simpl.
  rewrite <- app_assoc. done.
Qed.

(** [rename] of an existing file onto the path it already has finds the
    file itself in the way, deletes it as the conflicting object, and
    then moves it: the call succeeds and the file no longer exists. *)
Theorem rename_file_onto_own_path_deletes_it m k a o :
  well_formed m -> _get_by_oid m k = Some (a, o) ->
  o_exists o = true -> o_type o = MOCK_FILE ->
  _verify_parent_folder_exists m (o_path o) = Ok () ->
  exists m',
    rename md5 k (o_path o) m = (m', Ok ())
    /\ exists_oid m' k = false
    /\ exists_path m' (o_path o) = false
    /\ _events m' = _events m ++
         [mkMockEvent ACTION_DELETE (set_exists false o);
          mkMockEvent ACTION_RENAME (set_exists false o);
          mkMockEvent ACTION_RENAME (set_exists false o)].
Proof.
  intros Hwf Hg Hex Hty Hver. unfold rename. rewrite Hg, Hex. simpl.
  rewrite Hver.
  apply deref_inv in Hg as [Hd Hh].
  destruct (wf_heap m Hwf a o Hh) as (Hoid & Hoa & Hpa). specialize (Hpa Hex).
  destruct (wf_by_oid m Hwf k a Hd) as [-> _].
  unfold _get_by_path at 1, deref. rewrite Hpa. simpl. rewrite Hh. simpl.
  rewrite Hex, bool_decide_true by done. simpl. rewrite Hty.
  unfold delete, _get_by_oid, deref. rewrite Hoid, Hoa. simpl. rewrite Hh. simpl.
  rewrite Hex. simpl.
  unfold _rename_single_object. simpl. rewrite lookup_alter_eq, Hh. simpl.
  unfold _unstore_object, Dict.mem. simpl. rewrite Hpa. simpl.
  rewrite Hoid, Hoa. simpl.
  rewrite !lookup_alter_eq, Hh. simpl.
  eexists. split; [reflexivity|].
  unfold exists_oid, exists_path, _get_by_path, _get_by_oid, deref; simpl.
  rewrite ?Hoid. rewrite !Dict.get_set_eq. simpl. rewrite !lookup_alter_eq, Hh. simpl.
  rewrite <- !app_assoc. done.
Qed.

(** A complete read of [events] hands over, in the order they were
    logged, the events beyond the cursor, and leaves nothing: reading
    again at once yields no event. *)
Theorem events_all_empties_feed m :
  well_formed m ->
  (events_all m).2
    = _translate_event <$> drop (Z.to_nat (_cursor m + 1)) (_events m)
  /\ events_all (events_all m).1 = ((events_all m).1, []).
Proof.
  intros Hwf. rewrite (events_all_spec m Hwf). cbn [fst snd]. split; [done|].
  apply events_all_drained; [|done].
  apply wf_with_cursor; [done|]. destruct (wf_feed m Hwf). lia.
Qed.

(** On a provider whose events have all been read, [delete] of an
    existing object is reported by the next read as exactly one event,
    which carries the oid and [exists = False]. *)
Theorem delete_is_reported_once m k a o :
  well_formed m -> _cursor m = _latest_event m ->
  _get_by_oid m k = Some (a, o) -> o_exists o = true ->
  exists m',
    events_all (delete k m).1
      = (m', [mkEvent (TagOType (o_otype o)) k None None false])
    /\ events_all m' = (m', []).
Proof.
  intros Hwf Hdr Hg Hex.
  pose proof (wf_delete m k Hwf) as Hwd.
  rewrite (events_all_spec _ Hwd). eexists. split.
  - f_equal. unfold delete. rewrite Hg, Hex. cbn [fst].
    destruct (wf_feed m Hwf) as [Hcm Hlm].
    apply deref_inv in Hg as [Hd Hh].
    destruct (wf_by_oid m Hwf k a Hd) as [-> _].
    destruct (wf_heap m Hwf a o Hh) as (Hoid & _ & _).
    unfold FeedFacts.remaining. simpl.
    replace (Z.to_nat (_cursor m + 1)) with (length (_events m)) by lia.
    rewrite drop_app_length. simpl.
    unfold _translate_event, o_otype; simpl. by rewrite Hoid.
  - apply events_all_drained; [|done].
    apply wf_with_cursor; [done|]. destruct (wf_feed _ Hwd). lia.
Qed.

End Consequences.

(** ** A concrete run

    A new provider on which ["/a.txt"] was created with [b"hello"]; the
    file has the oid ["2"]. *)
Definition hello_store : MockProvider :=
  (create MockFacts.digest_stub 2 "/a.txt" b_hello (init 1 "/" false)).1.

Definition hello_file : MockFSObject :=
  mkObj "/a.txt" (Some b_hello) "2" true MOCK_FILE.

Lemma wf_hello_store : well_formed hello_store.
Proof. apply wf_create; [apply wf_init | reflexivity]. Qed.

Lemma wf_hello_store_read : well_formed (events_all hello_store).1.
Proof. apply wf_events_take, wf_hello_store. Qed.

Lemma upload_then_download_witness :
  exists m',
    upload MockFacts.digest_stub "2" [Byte.x21] hello_store
      = (m', Ok (mkOInfo FILE (o_oid hello_file)
                   (Some (MockFacts.digest_stub [Byte.x21])) (o_path hello_file)))
    /\ download "2" b_hello m' = Ok (b_hello ++ [Byte.x21])
    /\ hash_oid MockFacts.digest_stub "2" m'
         = Ok (Some (MockFacts.digest_stub [Byte.x21]))
    /\ _events m' = _events hello_store
         ++ [mkMockEvent ACTION_UPDATE (set_contents [Byte.x21] hello_file)].
Proof.
  apply (upload_then_download MockFacts.digest_stub hello_store "2" 2 hello_file);
    reflexivity.
Defined.

(** [create] on the occupied path ["/a.txt"] raises and leaves the
    store as it was; [create] on the free path ["/b.txt"] with a closed
    stream raises [ValueError] and leaves an existing object there. *)
Lemma failed_read_leaves_created_object_witness :
  (create_reading MockFacts.digest_stub 3 "/a.txt" (Ok b_hello) hello_store).1
    = hello_store
  /\ exists m',
       create_reading MockFacts.digest_stub 3 "/b.txt" (Raise ValueError) hello_store
         = (m', Raise ValueError)
       /\ exists_path m' "/b.txt" = true
       /\ _get_by_path m' "/b.txt" = Some (3%N, new_object 3 "/b.txt" MOCK_FILE)
       /\ o_contents (new_object 3 "/b.txt" MOCK_FILE) = None
       /\ _events m' = _events hello_store.
Proof.
  destruct (failed_read_leaves_created_object MockFacts.digest_stub hello_store)
    as (_ & _ & Hread & Hclosed & _).
  split.
  - apply (Hread 3%N "/a.txt" b_hello _ CloudFileExistsError). reflexivity.
  - apply (Hclosed 3%N "/b.txt" ValueError); [reflexivity | reflexivity | by left].
Defined.


Lemma info_path_and_info_oid_agree_witness :
  (path (mkOInfo FILE "2" (Some b_hello) "/a.txt") = "/a.txt"
   /\ info_oid MockFacts.digest_stub hello_store "2"
        = Ok (Some (mkOInfo FILE "2" (Some b_hello) "/a.txt")))
  /\ (oid (mkOInfo FILE "2" (Some b_hello) "/a.txt") = "2"
      /\ info_path MockFacts.digest_stub hello_store "/a.txt"
           = Ok (Some (mkOInfo FILE "2" (Some b_hello) "/a.txt"))).
Proof.
  destruct (info_path_and_info_oid_agree MockFacts.digest_stub hello_store
              "/a.txt" "2" (mkOInfo FILE "2" (Some b_hello) "/a.txt")
              wf_hello_store) as [Hp Ho].
  split; [apply Hp | apply Ho]; reflexivity.
Defined.

Lemma delete_makes_absent_witness :
  exists m',
    delete "2" hello_store = (m', Ok ())
    /\ exists_oid m' "2" = false
    /\ exists_path m' (o_path hello_file) = false
    /\ info_oid MockFacts.digest_stub m' "2" = Ok None
    /\ info_path MockFacts.digest_stub m' (o_path hello_file) = Ok None
    /\ download "2" [] m' = Raise CloudFileNotFoundError
    /\ _events m' = _events hello_store
         ++ [mkMockEvent ACTION_DELETE (set_exists false hello_file)]
    /\ delete "2" m' = (m', Ok ()).
Proof.
  apply (delete_makes_absent MockFacts.digest_stub hello_store "2" 2 hello_file []);
    [apply wf_hello_store | reflexivity | reflexivity].
Defined.

Lemma rename_file_to_free_path_witness :
  exists m',
    rename MockFacts.digest_stub "2" "/b.txt" hello_store = (m', Ok ())
    /\ _get_by_path m' "/b.txt" = Some (2%N, set_path "/b.txt" hello_file)
    /\ _get_by_oid m' "2" = Some (2%N, set_path "/b.txt" hello_file)
    /\ _get_by_path m' (o_path hello_file) = None
    /\ _events m' = _events hello_store ++
         [mkMockEvent ACTION_RENAME (set_path "/b.txt" hello_file);
          mkMockEvent ACTION_RENAME (set_path "/b.txt" hello_file)].
Proof.
  apply (rename_file_to_free_path MockFacts.digest_stub hello_store "2" 2 hello_file
           "/b.txt"); [apply wf_hello_store | reflexivity..].
Defined.

Lemma rename_file_onto_own_path_deletes_it_witness :
  exists m',
    rename MockFacts.digest_stub "2" (o_path hello_file) hello_store = (m', Ok ())
    /\ exists_oid m' "2" = false
    /\ exists_path m' (o_path hello_file) = false
    /\ _events m' = _events hello_store ++
         [mkMockEvent ACTION_DELETE (set_exists false hello_file);
          mkMockEvent ACTION_RENAME (set_exists false hello_file);
          mkMockEvent ACTION_RENAME (set_exists false hello_file)].
Proof.
  apply (rename_file_onto_own_path_deletes_it MockFacts.digest_stub hello_store
           "2" 2 hello_file); [apply wf_hello_store | reflexivity..].
Defined.

Lemma events_all_empties_feed_witness :
  (events_all hello_store).2
    = _translate_event <$>
        drop (Z.to_nat (_cursor hello_store + 1)) (_events hello_store)
  /\ events_all (events_all hello_store).1 = ((events_all hello_store).1, []).
Proof. apply (events_all_empties_feed hello_store), wf_hello_store. Defined.

Lemma delete_is_reported_once_witness :
  exists m',
    events_all (delete "2" (events_all hello_store).1).1
      = (m', [mkEvent (TagOType (o_otype hello_file)) "2" None None false])
    /\ events_all m' = (m', []).
Proof.
  apply (delete_is_reported_once (events_all hello_store).1 "2" 2 hello_file);
    [apply wf_hello_store_read | reflexivity..].
Defined.

End MockStore.

(** * The Drive provider: the session *)
Module SessionFacts.
Import GDrive.

Section Provider.
Context {W : Type}.
Variable api : DriveAPI W.

Local Abbreviation Run := (@M W).

(** The two failures of the session itself: the token cannot be
    refreshed, or the connection is gone. *)
Definition session_error (e : PyError) : bool :=
  match e with
  | CloudTokenError | CloudDisconnectedError => true
  | _ => false
  end.

(** A computation that, when it ends with a failure of the session,
    leaves the provider disconnected. *)
Definition failure_disconnects {A} (m : Run A) : Prop :=
  forall st st' e,
    m st = Some (st', Raise e) -> session_error e = true -> client st'.2 = false.

Lemma fd_ret {A} (a : A) : failure_disconnects (@ret W A a).
Proof. by intros st st' e [=]. Qed.

Lemma fd_raise {A} e : session_error e = false -> failure_disconnects (@raise W A e).
Proof. intros He st st' e' [= <- <-]. congruence. Qed.

Lemma fd_self : failure_disconnects (@self W).
Proof. by intros st st' e [=]. Qed.

Lemma fd_modify f : failure_disconnects (@modify W f).
Proof. by intros st st' e [=]. Qed.

Lemma fd_bind {A B} (m : Run A) (k : A -> Run B) :
  failure_disconnects m -> (forall a, failure_disconnects (k a)) ->
  failure_disconnects (bind m k).
Proof.
  intros Hm Hk st st' e H.
  apply GDriveFacts.bind_inv in H as [(st1 & a & Hm1 & Hk1)|(e' & Hm1 & [= <-])].
  - by eapply Hk.
  - by eapply Hm.
Qed.

Lemma fd_api {A} (request : W -> Http A * W) : failure_disconnects (_api request).
Proof.
  intros [w g] st' e. unfold _api. destruct (client g) eqn:Hc; simpl.
  - destruct (request w) as [[] w']; intros [= <- <-]; done.
  - by intros [= <- <-].
Qed.

Lemma fd_or_none {A} (m : Run A) :
  failure_disconnects m -> failure_disconnects (or_none m).
Proof.
  intros Hm st st' e. unfold or_none.
  destruct (m st) as [[st1 [a|e1]]|] eqn:H; [done| |done].
  destruct e1; intros [= <- <-]; try done; intros _; by eapply Hm.
Qed.

Ltac fd_step :=
  first
    [ apply fd_ret | apply fd_raise; reflexivity | apply fd_self
    | apply fd_modify | apply fd_api | apply fd_or_none
    | assumption
    | apply fd_bind; [|intros ?]
    | match goal with
      | |- failure_disconnects (match ?x with _ => _ end) => destruct x
      | |- failure_disconnects (if ?b then _ else _) => destruct b
      end ].

Lemma fd_info_oid oid : failure_disconnects (_info_oid api oid).
Proof. unfold _info_oid. repeat fd_step. Qed.

Lemma fd_root_id : failure_disconnects (root_id api).
Proof. unfold root_id. repeat fd_step. Qed.

Lemma fd_cursor : failure_disconnects (cursor api).
Proof. unfold cursor. repeat fd_step. Qed.

Lemma fd_info_path_with get_parent path :
  failure_disconnects (get_parent (Some path)) ->
  failure_disconnects (info_path_with api get_parent path).
Proof. intros H. unfold info_path_with. repeat fd_step. Qed.

Lemma fd_exists_path_with get_parent path :
  failure_disconnects (get_parent (Some path)) ->
  failure_disconnects (exists_path_with api get_parent path).
Proof.
  intros H. unfold exists_path_with.
  apply fd_bind; [apply fd_self|]. intros g.
  destruct (Dict.mem (_ids g) path); [apply fd_ret|].
  apply fd_bind; [by apply fd_info_path_with|]. intros ?. apply fd_ret.
Qed.

Lemma fd_get_parent_id_fuel n path :
  failure_disconnects (get_parent_id_fuel api n path).
Proof.
  revert path. induction n as [|n IH]; intros path; [by intros ???|].
  simpl. destruct path as [[|c p]|]; [apply fd_ret| |apply fd_ret].
  destruct (decide ((split (String c p)).1 = String c p)); [repeat fd_step|].
  apply fd_bind; [apply fd_exists_path_with, IH|].
  intros []; repeat fd_step.
Qed.

Lemma fd_get_parent_id path : failure_disconnects (get_parent_id api path).
Proof. apply fd_get_parent_id_fuel. Qed.

Lemma fd_info_path path : failure_disconnects (info_path api path).
Proof. apply fd_info_path_with, fd_get_parent_id_fuel. Qed.

Lemma fd_exists_path path : failure_disconnects (exists_path api path).
Proof. apply fd_exists_path_with, fd_get_parent_id_fuel. Qed.

Lemma fd_mkdir path : failure_disconnects (mkdir api path).
Proof.
  unfold mkdir. apply fd_bind; [apply fd_get_parent_id|]. intros ?. repeat fd_step.
Qed.

Lemma fd_create path content : failure_disconnects (create api path content).
Proof.
  unfold create. apply fd_bind; [apply fd_get_parent_id|]. intros ?.
  apply fd_bind; [apply fd_api|]. intros [[id h]|]; repeat fd_step.
Qed.

Lemma fd_rename oid path : failure_disconnects (rename api oid path).
Proof.
  unfold rename. apply fd_bind; [apply fd_get_parent_id|]. intros pid.
  apply fd_bind.
  { destruct (decide (pid = Some "root")); [|apply fd_ret].
    apply fd_bind; [apply fd_root_id | intros ?; apply fd_ret]. }
  intros add_pids. apply fd_bind; [apply fd_info_oid|].
  intros [info|]; repeat fd_step.
Qed.

Lemma fd_delete oid : failure_disconnects (delete api oid).
Proof. apply fd_api. Qed.

Lemma fd_sync_root_id : failure_disconnects (sync_root_id api).
Proof.
  unfold sync_root_id. apply fd_bind; [apply fd_self|]. intros g.
  destruct (__sync_root_id g) as [[|c r]|].
  2: apply fd_ret.
  all: apply fd_bind; [apply fd_info_path|]; intros i1;
    apply fd_bind;
    [destruct i1; [apply fd_ret|];
     apply fd_bind; [apply fd_mkdir | intros ?; apply fd_ret]|];
    intros _; apply fd_bind; [apply fd_info_path|]; intros [i2|];
    [|by apply fd_raise];
    apply fd_bind; [apply fd_info_path|]; intros [info|]; repeat fd_step.
Qed.

Lemma fd_path_oid n oid : failure_disconnects (_path_oid api n oid).
Proof.
  revert oid. induction n as [|n IH]; intros oid; [by intros ???|].
  simpl. apply fd_bind; [apply fd_self|]. intros g.
  destruct (find_path (_ids g) oid); [apply fd_ret|].
  apply fd_bind; [apply fd_info_oid|].
  intros [[o h p [[|pid0 ps]|] [[|c nm]|]]|]; try apply fd_ret.
  apply fd_bind; [apply IH|]. intros [[|c' pp]|]; repeat fd_step.
Qed.

Lemma fd_is_suboid n top oid : failure_disconnects (is_suboid api n top oid).
Proof.
  revert oid. induction n as [|n IH]; intros oid; [by intros ???|].
  simpl. destruct (decide (Some top = oid)); [apply fd_ret|].
  apply fd_bind; [apply fd_get_parent_id|]. intros pid.
  destruct (decide (pid = oid)); [apply fd_ret | apply IH].
Qed.

(** The methods of the provider that talk to Drive through [_api]
    ([exists_oid] is [_info_oid]). *)
Inductive method : forall A : Type, Run A -> Prop :=
  | call_delete oid : method unit (delete api oid)
  | call_rename oid path : method unit (rename api oid path)
  | call_mkdir path : method (option string) (mkdir api path)
  | call_create path content : method _ (create api path content)
  | call_info_path path : method _ (info_path api path)
  | call_exists_path path : method bool (exists_path api path)
  | call_get_parent_id path : method _ (get_parent_id api path)
  | call_info_oid oid : method _ (_info_oid api oid)
  | call_root_id : method string (root_id api)
  | call_sync_root_id : method string (sync_root_id api)
  | call_cursor : method _ (cursor api)
  | call_path_oid n oid : method _ (_path_oid api n oid)
  | call_is_suboid n top oid : method bool (is_suboid api n top oid).

(** Whenever a method of the provider ends with [CloudTokenError] or
    [CloudDisconnectedError], whichever request of the call failed, the
    provider is disconnected afterwards: [connected] is [False]. *)
Theorem session_failure_disconnects A (m : Run A) st st' e :
  method A m -> m st = Some (st', Raise e) -> session_error e = true ->
  client st'.2 = false.
Proof.
  intros Hm. revert st st' e. change (failure_disconnects m).
  destruct Hm;
    auto using fd_delete, fd_rename, fd_mkdir, fd_create, fd_info_path,
      fd_exists_path, fd_get_parent_id, fd_info_oid, fd_root_id,
      fd_sync_root_id, fd_cursor, fd_path_oid, fd_is_suboid.
Qed.

End Provider.

(** A Drive that never answers in time. *)
Definition silent : DriveAPI unit :=
  mkAPI unit
    (fun _ => HTimeout) (fun _ _ => HTimeout) (fun _ _ _ => HTimeout)
    (fun w _ _ _ _ => (HTimeout, w)) (fun w _ _ => (HTimeout, w))
    (fun w _ _ _ => (HTimeout, w)) (fun w _ => (HTimeout, w))
    (fun _ => HTimeout) (fun _ _ => HTimeout).

(** [mkdir("/a/b")] on a connected provider, whose lookup of ["/a"]
    times out. *)
Lemma session_failure_disconnects_witness :
  mkdir silent "/a/b" (tt, TestDrive.connected)
    = Some ((tt, with_client TestDrive.connected false), Raise CloudDisconnectedError)
  /\ client (with_client TestDrive.connected false) = false.
Proof.
  split; [vm_compute; reflexivity|].
  apply (session_failure_disconnects silent _ (mkdir silent "/a/b")
           (tt, TestDrive.connected) (tt, with_client TestDrive.connected false)
           CloudDisconnectedError);
    [apply call_mkdir | vm_compute; reflexivity | reflexivity].
Defined.

End SessionFacts.

(** * The Drive provider: what the path cache is trusted with *)
Module PathCacheFacts.
Import GDrive.

Section Provider.
Context {W : Type}.
Variable api : DriveAPI W.

Local Abbreviation St := (W * GDriveProvider)%type.
Local Abbreviation Run := (@M W).

Lemma cached_exists_path_with (get_parent : option string -> Run (option string))
    w g path id :
  Dict.get (_ids g) path = Some id ->
  exists_path_with api get_parent path (w, g) = Some ((w, g), Ok true).
Proof.
  intros H. unfold exists_path_with, bind, self, Dict.mem; simpl. by rewrite H.
Qed.

(** A path that the cache holds is not looked up again: [exists_path]
    answers [True], and [get_parent_id] of a child answers the cached
    id, without a request to Drive, whatever Drive holds by now and
    whether or not the provider is connected. *)
Theorem lookups_trust_the_cache w g path id child :
  Dict.get (_ids g) path = Some id ->
  exists_path api path (w, g) = Some ((w, g), Ok true)
  /\ (dirname child = path -> child <> path ->
      get_parent_id api (Some child) (w, g) = Some ((w, g), Ok (Some id))).
Proof.
  intros Hc. split; [by eapply cached_exists_path_with|].
  unfold dirname. intros Hd Hne. unfold get_parent_id, path_fuel.
  destruct child as [|c p]; [by subst|].
  cbn [get_parent_id_fuel].
  destruct (decide ((split (String c p)).1 = String c p)) as [Heq|_]; [congruence|].
  unfold bind at 1. rewrite Hd, (cached_exists_path_with _ w g path id Hc).
  unfold bind, self; simpl. by rewrite Hc.
Qed.

(** A request that comes back leaves the cache as it was. *)
Lemma api_keeps_ids {A} (request : W -> Http A * W) st st' r :
  _api request st = Some (st', r) -> _ids st'.2 = _ids st.2.
Proof.
  destruct st as [w g]. unfold _api. destruct (negb (client g)); [by intros [= <- <-]|].
  destruct (request w) as [[] w']; by intros [= <- <-].
Qed.

Lemma api_ok_keeps_provider {A} (request : W -> Http A * W) st st' a :
  _api request st = Some (st', Ok a) -> st'.2 = st.2.
Proof.
  destruct st as [w g]. unfold _api. destruct (negb (client g)); [done|].
  destruct (request w) as [[] w']; by intros [= <- <-].
Qed.

Lemma created_path_cached path content st st' id h p :
  create api path content st = Some (st', Ok (id, h, p)) ->
  p = path /\ Dict.get (_ids st'.2) path = Some id.
Proof.
  unfold create. intros H.
  apply GDriveFacts.bind_inv in H as [(st1 & pid & _ & H)|(e & _ & ?)]; [|done].
  apply GDriveFacts.bind_inv in H as [(st2 & res & _ & H)|(e & _ & ?)]; [|done].
  destruct res as [[id' h']|]; [|done].
  apply GDriveFacts.bind_inv in H as [(st3 & [] & Hm & H)|(e & _ & ?)]; [|done].
  injection Hm as <-. injection H as <- <- <- <-. simpl.
  by rewrite Dict.get_set_eq.
Qed.

(** [delete] does not touch the cache: after [create(path)] and
    [delete] of the oid it returned have both succeeded, [exists_path]
    of that path still answers [True], without asking Drive. *)
Theorem deleted_path_still_exists path content st st1 st2 id h p :
  create api path content st = Some (st1, Ok (id, h, p)) ->
  delete api id st1 = Some (st2, Ok ()) ->
  exists_path api path st2 = Some (st2, Ok true).
Proof.
  intros Hc Hd. apply created_path_cached in Hc as [_ Hc].
  apply api_ok_keeps_provider in Hd. destruct st2 as [w2 g2]. simpl in Hd.
  subst g2. by eapply cached_exists_path_with.
Qed.

(** ** [rename] and the cache *)

Lemma find_path_first ids oid :
  (exists p, (p, oid) ∈ ids) ->
  exists p, find_path ids oid = Some p /\ (p, oid) ∈ ids.
Proof.
  induction ids as [|[p0 o0] r IH]; simpl.
  - intros [p Hp]. by apply elem_of_nil in Hp.
  - intros [p Hp]. destruct (decide (o0 = oid)) as [->|Hne].
    + exists p0. split; [done | apply list_elem_of_here].
    + apply elem_of_cons in Hp as [[= -> ->]|Hp]; [done|].
      destruct IH as (p' & Hf & Hin); [by exists p|].
      exists p'. split; [done | by apply list_elem_of_further].
Qed.

Lemma root_id_keeps_paths st st' r p :
  root_id api st = Some (st', r) -> p <> "/" ->
  Dict.get (_ids st'.2) p = Dict.get (_ids st.2) p.
Proof.
  unfold root_id. intros H Hp.
  apply GDriveFacts.bind_inv in H as [(st1 & g & Hs & H)|(e & Hs & _)]; [|done].
  injection Hs as <- <-.
  assert (Hfetch : forall st' r,
    bind (_api (reading (files_get_root api)))
      (fun id => bind (modify (fun g => with_ids (with_root_id g (Some id))
                                          (Dict.set (_ids g) "/" id)))
                   (fun _ => ret id)) st = Some (st', r) ->
    Dict.get (_ids st'.2) p = Dict.get (_ids st.2) p).
  { clear H st' r. intros st' r H.
    apply GDriveFacts.bind_inv in H as [(st1 & id & Ha & H)|(e & Ha & _)].
    - apply api_keeps_ids in Ha.
      apply GDriveFacts.bind_inv in H as [(st2 & [] & Hm & H)|(e & Hm & _)]; [|done].
      injection Hm as <-. injection H as <- _. simpl.
      rewrite Dict.get_set_ne by done. by rewrite Ha.
    - apply api_keeps_ids in Ha. by rewrite Ha. }
  destruct (__root_id st.2) as [[|c s]|]; [by apply (Hfetch _ r)| |by apply (Hfetch _ r)].
  by injection H as <- _.
Qed.

(** What a successful [rename] leaves in the cache: the loop has run
    over a cache that kept every path, the root apart, it had when the
    call began. *)
Lemma rename_ok_cache oid path st st' :
  rename api oid path st = Some (st', Ok ()) ->
  exists ids1,
    _ids st'.2 = rename_cache ids1 oid path ids1
    /\ forall p id, p <> "/" -> Dict.get (_ids st.2) p = Some id ->
                    Dict.get ids1 p = Some id.
Proof.
  unfold rename. intros H.
  apply GDriveFacts.bind_inv in H as [(st1 & pid & Hp & H)|(e & _ & ?)]; [|done].
  apply GDriveFacts.get_parent_id_fuel_grows, GDriveFacts.grows_below_kept in Hp.
  apply GDriveFacts.bind_inv in H as [(st2 & add_pids & Ha & H)|(e & _ & ?)]; [|done].
  assert (H12 : forall p, p <> "/" ->
            Dict.get (_ids st2.2) p = Dict.get (_ids st1.2) p).
  { intros p Hne. destruct (decide (pid = Some "root")) as [Hroot|Hroot].
    - apply GDriveFacts.bind_inv in Ha as [(st1' & rid & Hr & Ha)|(e & _ & ?)]; [|done].
      injection Ha as <- _. by eapply root_id_keeps_paths.
    - by injection Ha as <- _. }
  apply GDriveFacts.bind_inv in H as [(st3 & info & Hi & H)|(e & _ & ?)]; [|done].
  assert (H23 : _ids st3.2 = _ids st2.2).
  { unfold _info_oid in Hi.
    apply GDriveFacts.bind_inv in Hi as [(st2' & res & Hres & Hi)|(e & _ & ?)]; [|done].
    apply GDriveFacts.or_none_inv in Hres as [r0 Hres].
    apply api_keeps_ids in Hres. destruct res; by injection Hi as <- _. }
  destruct info as [info|]; [|done].
  apply GDriveFacts.bind_inv in H as [(st4 & [] & Hu & H)|(e & _ & ?)]; [|done].
  apply api_keeps_ids in Hu. injection H as <-. simpl.
  exists (_ids st4.2). split; [done|].
  intros p id Hne Hget. rewrite Hu, H23, H12 by done. by apply Hp.
Qed.

(** After a successful [rename(oid, path)] of an oid that the cache
    held under some path other than the root, the cache holds the oid
    under [path] and under no other path, so that [_path_oid(oid)]
    answers [path] without asking Drive. *)
Theorem rename_moves_cached_oid oid path p0 st st' n :
  rename api oid path st = Some (st', Ok ()) ->
  Dict.get (_ids st.2) p0 = Some oid -> p0 <> "/" ->
  (forall p, (p, oid) ∈ _ids st'.2 -> p = path)
  /\ _path_oid api (S n) oid st' = Some (st', Ok (Some path)).
Proof.
  intros Hr Hp0 Hne.
  apply rename_ok_cache in Hr as (ids1 & Hids & Hkept).
  assert (Hin : (p0, oid) ∈ ids1) by (by apply Dict.get_Some_in, Hkept).
  assert (Honly : forall p, (p, oid) ∈ _ids st'.2 -> p = path).
  { intros p Hp. rewrite Hids in Hp.
    pose proof (CacheFacts.rename_cache_entries ids1 oid path ids1 ids1 p oid) as E.
    rewrite decide_True in E by done. apply E; auto. }
  split; [done|].
  destruct (find_path_first (_ids st'.2) oid) as (p & Hf & Hp).
  { exists path. rewrite Hids. apply CacheFacts.rename_cache_has_path. left. by exists p0. }
  rewrite (Honly p Hp) in Hf.
  simpl. unfold bind, self. simpl. by rewrite Hf.
Qed.

End Provider.
(** A disconnected provider whose cache holds ["/d"], and a Drive that
    holds nothing. *)
Definition offline : GDriveProvider := with_ids (new "/") [("/", "root"); ("/d", "D")].

Definition empty_drive : TestDrive.Drive := TestDrive.mkDrive [] [] [] [].

Lemma lookups_trust_the_cache_witness :
  exists_path TestDrive.api "/d" (empty_drive, offline)
    = Some ((empty_drive, offline), Ok true)
  /\ get_parent_id TestDrive.api (Some "/d/f") (empty_drive, offline)
     = Some ((empty_drive, offline), Ok (Some "D")).
Proof.
  destruct (lookups_trust_the_cache TestDrive.api empty_drive offline "/d" "D" "/d/f")
    as [H1 H2]; [reflexivity|].
  split; [exact H1 | apply H2; [reflexivity | done]].
Defined.

(** Drive knows the file that [create] will be given the id of. *)
Definition drive_knowing_file : TestDrive.Drive :=
  TestDrive.mkDrive
    [("id-of-a.txt", mkMeta (Some "a.txt") (Some "md5-of-a.txt") (Some ["root"]))]
    [] [] [].

Lemma deleted_path_still_exists_witness :
  exists st2,
    delete TestDrive.api "id-of-a.txt"
      (TestDrive.logged drive_knowing_file (TestDrive.WCreate "a.txt" (Some "root")),
       with_ids TestDrive.connected [("/", "root"); ("/a.txt", "id-of-a.txt")])
      = Some (st2, Ok ())
    /\ exists_path TestDrive.api "/a.txt" st2 = Some (st2, Ok true).
Proof.
  eexists. split; [vm_compute; reflexivity|].
  eapply (deleted_path_still_exists TestDrive.api "/a.txt" b_hello
            (drive_knowing_file, TestDrive.connected));
    vm_compute; reflexivity.
Defined.

(** The folder ["a"] of [RenameFacts.drive_with_folder], cached under
    ["/a"], is renamed to ["/b"]. *)
Lemma rename_moves_cached_oid_witness :
  exists st',
    rename TestDrive.api "A" "/b" (RenameFacts.drive_with_folder, RenameFacts.resolved_folder)
      = Some (st', Ok ())
    /\ (forall p, (p, "A") ∈ _ids st'.2 -> p = "/b")
    /\ _path_oid TestDrive.api 1 "A" st' = Some (st', Ok (Some "/b")).
Proof.
  eexists. split; [vm_compute; reflexivity|].
  apply (rename_moves_cached_oid TestDrive.api "A" "/b" "/a"
           (RenameFacts.drive_with_folder, RenameFacts.resolved_folder));
    [vm_compute; reflexivity | reflexivity | done].
Defined.

End PathCacheFacts.

(** * The Drive provider: lookups by path return, and properties are kept *)
Module LookupFacts.
Import GDrive.

Section Provider.
Context {W : Type}.
Variable api : DriveAPI W.

Local Abbreviation Run := (@M W).

(** [get_parent_id] calls [exists_path], which calls [info_path], which
    calls [get_parent_id] again, on the parent.  Whatever Drive answers
    and whatever the cache holds, each of the three returns (a value or
    an exception): every call goes to a strictly shorter path.  The
    length of the path bounds the depth, and a larger bound gives the
    same outcome. *)
Theorem path_lookups_return path p st :
  (exists out, get_parent_id api path st = Some out
     /\ forall n, GDriveFacts.path_length path < n ->
                  get_parent_id_fuel api n path st = Some out)
  /\ (exists out, info_path api p st = Some out)
  /\ (exists out, exists_path api p st = Some out).
Proof.
  split_and!.
  - destruct (get_parent_id api path st) as [out|] eqn:H.
    + exists out. split; [done|]. intros n Hn. rewrite <- H. unfold get_parent_id.
      apply GDriveFacts.get_parent_id_fuel_irrelevant; [done|].
      destruct path; simpl; lia.
    + by apply GDriveFacts.get_parent_id_total in H.
  - destruct (info_path api p st) as [out|] eqn:H; [by exists out|].
    by apply GDriveFacts.info_path_total in H.
  - destruct (exists_path api p st) as [out|] eqn:H; [by exists out|].
    by apply GDriveFacts.exists_path_total in H.
Qed.

(** ** Memoized properties *)

Lemma root_id_kept st st' id :
  root_id api st = Some (st', Ok id) -> __root_id st'.2 = Some id.
Proof.
  unfold root_id. intros H.
  apply GDriveFacts.bind_inv in H as [(st1 & g & Hs & H)|(e & _ & ?)]; [|done].
  injection Hs as <- <-.
  assert (Hfetch :
    bind (_api (reading (files_get_root api)))
      (fun id => bind (modify (fun g => with_ids (with_root_id g (Some id))
                                          (Dict.set (_ids g) "/" id)))
                   (fun _ => ret id)) st = Some (st', Ok id) ->
    __root_id st'.2 = Some id).
  { clear H. intros H.
    apply GDriveFacts.bind_inv in H as [(st1 & id1 & Ha & H)|(e & _ & ?)]; [|done].
    apply GDriveFacts.bind_inv in H as [(st2 & [] & Hm & H)|(e & _ & ?)]; [|done].
    injection Hm as <-. by injection H as <- <-. }
  destruct (__root_id st.2) as [[|c s]|] eqn:Hr; [by apply Hfetch| |by apply Hfetch].
  by injection H as <- <-.
Qed.

Lemma cursor_kept st st' tok :
  cursor api st = Some (st', Ok tok) -> __cursor st'.2 = tok.
Proof.
  unfold cursor. intros H.
  apply GDriveFacts.bind_inv in H as [(st1 & g & Hs & H)|(e & _ & ?)]; [|done].
  injection Hs as <- <-.
  destruct (truthy (__cursor st.2)); [by injection H as <- <-|].
  apply GDriveFacts.bind_inv in H as [(st1 & tok1 & Ha & H)|(e & _ & ?)]; [|done].
  apply GDriveFacts.bind_inv in H as [(st2 & [] & Hm & H)|(e & _ & ?)]; [|done].
  injection Hm as <-. by injection H as <- <-.
Qed.

Lemma sync_root_id_kept st st' id :
  sync_root_id api st = Some (st', Ok id) -> __sync_root_id st'.2 = Some id.
Proof.
  unfold sync_root_id. intros H.
  apply GDriveFacts.bind_inv in H as [(st0 & g & Hs & H)|(e & _ & ?)]; [|done].
  injection Hs as <- <-.
  assert (Hfetch :
    forall k : Run string, k = (
      bind (info_path api (sync_root st.2)) (fun i1 =>
      bind (match i1 with
            | None => bind (mkdir api (sync_root st.2)) (fun _ => ret ())
            | Some _ => ret ()
            end) (fun _ =>
      bind (info_path api (sync_root st.2)) (fun i2 =>
      match i2 with
      | None => raise CloudFileNotFoundError
      | Some _ =>
          bind (info_path api (sync_root st.2)) (fun info =>
          match info with
          | None => raise AttributeError
          | Some info =>
              bind (modify (fun g => with_sync_root_id g (Some (gi_oid info))))
                (fun _ => ret (gi_oid info))
          end)
      end)))) ->
    k st = Some (st', Ok id) -> __sync_root_id st'.2 = Some id).
  { clear H. intros k -> H.
    apply GDriveFacts.bind_inv in H as [(st1 & i1 & _ & H)|(e & _ & ?)]; [|done].
    apply GDriveFacts.bind_inv in H as [(st2 & [] & _ & H)|(e & _ & ?)]; [|done].
    apply GDriveFacts.bind_inv in H as [(st3 & i2 & _ & H)|(e & _ & ?)]; [|done].
    destruct i2 as [i2|]; [|done].
    apply GDriveFacts.bind_inv in H as [(st4 & info & _ & H)|(e & _ & ?)]; [|done].
    destruct info as [info|]; [|done].
    apply GDriveFacts.bind_inv in H as [(st5 & [] & Hm & H)|(e & _ & ?)]; [|done].
    injection Hm as <-. by injection H as <- <-. }
  destruct (__sync_root_id st.2) as [[|c s]|] eqn:Hr;
    [by eapply Hfetch| |by eapply Hfetch].
  by injection H as <- <-.
Qed.

(** [root_id], [sync_root_id] and [cursor] are fetched once: after a
    call has returned a non-empty value, every later call returns the
    same value without a request to Drive, whatever Drive holds by then
    and whether or not the provider is still connected. *)
Theorem properties_are_fetched_once st st' w c :
  (forall id, root_id api st = Some (st', Ok id) -> id <> "" ->
     root_id api (w, with_client st'.2 c) = Some ((w, with_client st'.2 c), Ok id))
  /\ (forall id, sync_root_id api st = Some (st', Ok id) -> id <> "" ->
     sync_root_id api (w, with_client st'.2 c)
       = Some ((w, with_client st'.2 c), Ok id))
  /\ (forall tok, cursor api st = Some (st', Ok tok) -> truthy tok = true ->
     cursor api (w, with_client st'.2 c) = Some ((w, with_client st'.2 c), Ok tok)).
Proof.
  split_and!.
  - intros id H Hne. apply root_id_kept in H.
    unfold root_id, bind, self; simpl. rewrite H. by destruct id.
  - intros id H Hne. apply sync_root_id_kept in H.
    unfold sync_root_id, bind at 1, self; simpl. rewrite H. by destruct id.
  - intros tok H Ht. apply cursor_kept in H.
    unfold cursor, bind at 1, self; simpl. by rewrite H, Ht.
Qed.

End Provider.

(** The sync root ["/a"] of [RenameFacts.drive_with_folder] is looked
    up once; afterwards its id is known to a disconnected provider on
    an empty Drive. *)
Lemma properties_are_fetched_once_witness :
  exists st',
    sync_root_id TestDrive.api
      (RenameFacts.drive_with_folder, with_client (new "/a") true) = Some (st', Ok "A")
    /\ sync_root_id TestDrive.api
         (PathCacheFacts.empty_drive, with_client st'.2 false)
       = Some ((PathCacheFacts.empty_drive, with_client st'.2 false), Ok "A").
Proof.
  eexists. split; [vm_compute; reflexivity|].
  apply (proj1 (proj2 (properties_are_fetched_once TestDrive.api
           (RenameFacts.drive_with_folder, with_client (new "/a") true) _
           PathCacheFacts.empty_drive false)));
    [vm_compute; reflexivity | done].
Defined.

End LookupFacts.

(** * [GDriveProvider.hash_data] *)
Module HashData.

(** [file_like.read(n)] on a stream of which [file_like] is still to be
    read: at most [n] bytes, and what is left. *)
Definition read (n : nat) (file_like : bytes) : bytes * bytes :=
  (take n file_like, drop n file_like).

(** [for c in iter(lambda: file_like.read(chunk), b''): md5.update(c)].
    The [md5] object is the bytes fed to it so far: [update] calls are
    equivalent to one call with the concatenation.  [fuel] bounds the
    number of reads. *)
Fixpoint hash_loop (chunk fuel : nat) (md5 file_like : bytes) : option (bytes * bytes) :=
  match fuel with
  | O => None
  | S fuel' =>
      match read chunk file_like with
      | ([], rest) => Some (md5, rest)
      | (c, rest) => hash_loop chunk fuel' (md5 ++ c) rest
      end
  end.

Section WithDigest.
(** [hashlib.md5(data).hexdigest()]. *)
Variable hexdigest : bytes -> string.

Definition hash_data (fuel : nat) (file_like : bytes) : option string :=
  match hash_loop 4096 fuel [] file_like with
  | Some (md5, _) => Some (hexdigest md5)
  | None => None
  end.

Lemma hash_loop_reads_all chunk fuel md5 file_like :
  0 < chunk -> length file_like < fuel ->
  hash_loop chunk fuel md5 file_like = Some (md5 ++ file_like, []).
Proof.
  intros Hc. revert md5 file_like.
  induction fuel as [|fuel IH]; intros md5 file_like Hlen; [lia|].
  cbn [hash_loop]. unfold read.
  destruct file_like as [|b rest].
  - rewrite take_nil, drop_nil, app_nil_r. done.
  - destruct chunk as [|chunk]; [lia|].
    cbn [take drop]. rewrite IH.
    + by rewrite <- app_assoc, <- app_comm_cons, take_drop.
    + rewrite length_drop. simpl in Hlen. lia.
Qed.

(** [hash_data] returns the digest of the whole stream, whatever its
    length: the loop reads chunk after chunk and stops at the first
    empty read, which is the end of the stream. *)
Theorem hash_data_digests_whole_stream fuel file_like :
  length file_like < fuel ->
  hash_data fuel file_like = Some (hexdigest file_like).
Proof.
  intros Hlen. unfold hash_data.
  rewrite hash_loop_reads_all by (done || lia). done.
Qed.

End WithDigest.

Lemma hash_data_digests_whole_stream_witness :
  hash_data (fun b => String.string_of_list_byte b) 6 b_hello
  = Some (String.string_of_list_byte b_hello).
Proof.
  apply (hash_data_digests_whole_stream (fun b => String.string_of_list_byte b) 6 b_hello).
  vm_compute. lia.
Defined.

End HashData.

(** * The registry: what a lookup finds *)
Module RegistryLookup.
Import Registry.

Section Registry.
Context {R : Type}.

Local Abbreviation Provider := (@Prov R).

(** The first module of [sys.modules] whose [__cloudsync__] has the
    name [k]. *)
Fixpoint declared (modules : list (string * option Provider)) (k : string)
    : option Provider :=
  match modules with
  | [] => None
  | (_, Some prov) :: r => if decide (name prov = k) then Some prov else declared r k
  | (_, None) :: r => declared r k
  end.

Lemma discover_get (modules : list (string * option Provider)) providers k :
  Dict.get (discover_providers modules providers) k
  = match Dict.get providers k with
    | Some p => Some p
    | None => declared modules k
    end.
Proof.
  revert providers. induction modules as [|[mn [prov|]] r IH]; intros providers; simpl.
  - by destruct (Dict.get providers k).
  - unfold Dict.mem, register_provider.
    destruct (Dict.get providers (name prov)) as [p0|] eqn:Hp.
    + rewrite IH. destruct (Dict.get providers k) eqn:Hk; [done|].
      destruct (decide (name prov = k)) as [<-|]; [congruence | done].
    + rewrite IH. destruct (decide (name prov = k)) as [<-|Hne].
      * by rewrite Dict.get_set_eq, Hp.
      * by rewrite Dict.get_set_ne.
  - apply IH.
Qed.

(** [provider_by_name(k)] returns the provider registered under [k];
    when there is none, the first module that declares a provider named
    [k]; and raises [RuntimeError] exactly when there is neither.  A
    lookup never replaces a provider that is registered. *)
Theorem provider_by_name_outcome (modules : list (string * option Provider))
    k providers :
  (provider_by_name modules k providers).2
    = match Dict.get providers k with
      | Some p => Ok p
      | None =>
          match declared modules k with
          | Some p => Ok p
          | None => Raise RuntimeError
          end
      end
  /\ forall k' p, Dict.get providers k' = Some p ->
       Dict.get (provider_by_name modules k providers).1 k' = Some p.
Proof.
  unfold provider_by_name, Dict.mem.
  destruct (Dict.get providers k) as [p0|] eqn:Hk.
  - rewrite Hk. done.
  - rewrite (discover_get modules providers k), Hk. split.
    + by destruct (declared modules k).
    + intros k' p Hk'.
      assert (Dict.get (discover_providers modules providers) k' = Some p)
        by (by rewrite discover_get, Hk').
      by destruct (declared modules k).
Qed.

(** [register_provider(prov)] followed by [provider_by_name(prov.name)]
    gives [prov] back, whatever was registered under that name before
    and whatever the loaded modules declare; but [known_providers()]
    and the discovery it runs never replace what is registered. *)
Theorem registered_provider_is_found (modules : list (string * option Provider))
    prov providers :
  provider_by_name modules (name prov) (register_provider prov providers)
    = (register_provider prov providers, Ok prov)
  /\ Dict.get (known_providers modules (register_provider prov providers)).1 (name prov)
     = Some prov.
Proof.
  unfold provider_by_name, known_providers, register_provider, Dict.mem. simpl.
  rewrite discover_get, !Dict.get_set_eq. done.
Qed.

End Registry.
End RegistryLookup.

(** * More of the older mock of tests/test_events.py *)
Module LegacyMore.
Import Legacy.

(** [download]: the bytes written to the local file. *)
Definition download (remote_file : string) (m : MockProvider) : Result bytes :=
  match lookup m remote_file with
  | Some (_, f) => Ok (f_contents f)
  | None => Raise CloudFileNotFoundError
  end.

(** [rename]. *)
Definition rename (remote_file_from remote_file_to : string) (m : MockProvider)
    : MockProvider * Result unit :=
  let file_old := lookup m remote_file_from in
  let file_new := lookup m remote_file_to in
  match file_old with
  | Some (a, f) =>
      if f_exists f then
        if match file_new with Some (_, n) => f_exists n | None => false end
           && negb (_allow_renames_over_existing m)
        then (m, Raise CloudFileExistsError)
        else
          (mkLegacy (_case_sensitive m) (_allow_renames_over_existing m)
             (<[a := mkFile remote_file_to (f_contents f) (f_remote_id f)
                       (f_exists f) (f_type f)]> (heap m))
             (Dict.set (_fs m) remote_file_to a),
           Ok ())
      else (m, Raise CloudFileNotFoundError)
  | None => (m, Raise CloudFileNotFoundError)
  end.

(** [rename] stores the file under its new name and leaves the old key
    in [_fs]: after a successful rename both names exist and lead to
    the same object, so that deleting the new name deletes the old one
    as well. *)
Theorem legacy_rename_keeps_old_name m a f old new :
  lookup m old = Some (a, f) -> f_exists f = true -> old <> new ->
  exists_ new m = false \/ _allow_renames_over_existing m = true ->
  exists m',
    rename old new m = (m', Ok ())
    /\ lookup m' old = lookup m' new
    /\ exists_ old m' = true
    /\ exists_ new m' = true
    /\ exists_ old (delete new m').1 = false.
Proof.
  intros Hl Hex Hne Hfree. unfold rename. rewrite Hl, Hex.
  assert (Hguard : match lookup m new with Some (_, n) => f_exists n | None => false end
                   && negb (_allow_renames_over_existing m) = false).
  { destruct Hfree as [Hf | ->]; [|by rewrite andb_false_r].
    unfold exists_ in Hf. by rewrite Hf. }
  rewrite Hguard. eexists. split; [reflexivity|].
  assert (Hd : Dict.get (_fs m) old = Some a).
  { unfold lookup in Hl. destruct (Dict.get (_fs m) old) as [a'|]; [|done].
    simpl in Hl. destruct (heap m !! a'); [|done]. simpl in Hl. congruence. }
  unfold exists_, delete, lookup; simpl.
  rewrite Dict.get_set_eq, Dict.get_set_ne, Hd by done. simpl.
  rewrite !lookup_insert_eq. simpl.
  rewrite Dict.get_set_ne, Hd by done. simpl. rewrite lookup_insert_eq. done.
Qed.

(** [upload] onto a name that was deleted writes the contents into the
    deleted object and leaves it deleted: it returns the remote id of
    the deleted object and the digest of the new contents, but the name
    still does not exist and [delete] still raises, while [download]
    gives the new contents. *)
Theorem legacy_upload_keeps_name_deleted hexdigest m a f name new_id contents :
  lookup m name = Some (a, f) -> f_exists f = false ->
  (upload hexdigest new_id contents name m).2 = (f_remote_id f, hexdigest contents)
  /\ exists_ name (upload hexdigest new_id contents name m).1 = false
  /\ (delete name (upload hexdigest new_id contents name m).1).2
     = Raise CloudFileNotFoundError
  /\ download name (upload hexdigest new_id contents name m).1 = Ok contents.
Proof.
  intros Hl Hex. unfold upload. rewrite Hl. simpl.
  assert (Hd : Dict.get (_fs m) name = Some a).
  { unfold lookup in Hl. destruct (Dict.get (_fs m) name) as [a'|]; [|done].
    simpl in Hl. destruct (heap m !! a'); [|done]. simpl in Hl. congruence. }
  unfold exists_, delete, download, lookup; simpl. rewrite Hd. simpl.
  rewrite lookup_insert_eq. simpl. by rewrite Hex.
Qed.

Lemma legacy_rename_keeps_old_name_witness :
  exists m',
    rename "/a" "/b" (upload LegacyFacts.hexdigest_stub 1 b_hello "/a" empty).1
      = (m', Ok ())
    /\ lookup m' "/a" = lookup m' "/b"
    /\ exists_ "/a" m' = true
    /\ exists_ "/b" m' = true
    /\ exists_ "/a" (delete "/b" m').1 = false.
Proof.
  apply (legacy_rename_keeps_old_name
           (upload LegacyFacts.hexdigest_stub 1 b_hello "/a" empty).1 1
           (mkFile "/a" b_hello "1" true "file") "/a" "/b");
    [reflexivity | reflexivity | done | left; reflexivity].
Defined.

Lemma legacy_upload_keeps_name_deleted_witness :
  (upload LegacyFacts.hexdigest_stub 2 [Byte.x21] "/a"
     LegacyFacts.store_with_deleted_name).2
    = ("1", LegacyFacts.hexdigest_stub [Byte.x21])
  /\ exists_ "/a" (upload LegacyFacts.hexdigest_stub 2 [Byte.x21] "/a"
                     LegacyFacts.store_with_deleted_name).1 = false
  /\ (delete "/a" (upload LegacyFacts.hexdigest_stub 2 [Byte.x21] "/a"
                     LegacyFacts.store_with_deleted_name).1).2
     = Raise CloudFileNotFoundError
  /\ download "/a" (upload LegacyFacts.hexdigest_stub 2 [Byte.x21] "/a"
                      LegacyFacts.store_with_deleted_name).1
     = Ok [Byte.x21].
Proof.
  apply (legacy_upload_keeps_name_deleted LegacyFacts.hexdigest_stub
           LegacyFacts.store_with_deleted_name 1
           (mkFile "/a" b_hello "1" false "file") "/a" 2 [Byte.x21]);
    reflexivity.
Defined.

End LegacyMore.

(** * The in-memory provider: calls repeated on one path, and the constructor *)
Module MockRepeat.
Import Mock.

Lemma stored_new_found m new_id path t act :
  _get_by_path
    (_register_event act (new_object new_id path t)
       (_store_object new_id (new_object new_id path t)
          (with_heap m (<[new_id := new_object new_id path t]> (heap m))))) path
  = Some (new_id, new_object new_id path t).
Proof.
  unfold _get_by_path, deref; simpl. rewrite Dict.get_set_eq. simpl.
  by rewrite lookup_insert_eq.
Qed.

(** Storing a new directory leaves the parent of its path in place. *)
Lemma verify_parent_after_mkdir m new_id path act :
  _verify_parent_folder_exists m path = Ok () ->
  _verify_parent_folder_exists
    (_register_event act (new_object new_id path MOCK_DIR)
       (_store_object new_id (new_object new_id path MOCK_DIR)
          (with_heap m (<[new_id := new_object new_id path MOCK_DIR]> (heap m))))) path
  = Ok ().
Proof.
  unfold _verify_parent_folder_exists.
  destruct (decide (dirname path = path)) as [|Hne]; [done|].
  unfold _get_by_path, deref; simpl. rewrite Dict.get_set_ne by done.
  destruct (Dict.get (_fs_by_path m) (dirname path)) as [a|]; [|done]. simpl.
  destruct (decide (new_id = a)) as [<-|Hna].
  - rewrite lookup_insert_eq. simpl. by destruct (heap m !! new_id) as [o|].
  - by rewrite lookup_insert_ne.
Qed.

(** The constructor returns the provider [init], and it returns for a
    sync root that is its own parent. *)
Lemma constructed_is_init root_id sync_root recycle m :
  __init__ root_id sync_root recycle = Ok m -> m = init root_id sync_root recycle.
Proof.
  unfold __init__, init.
  destruct (mkdir root_id sync_root (empty sync_root recycle)) as [m1 [made|e]];
    [|done].
  by intros [= <-].
Qed.

Lemma own_parent_root_constructs root_id sync_root recycle :
  dirname sync_root = sync_root ->
  __init__ root_id sync_root recycle = Ok (init root_id sync_root recycle).
Proof.
  intros Hroot. unfold __init__, init, mkdir, _verify_parent_folder_exists.
  by rewrite decide_True.
Qed.

(** [mkdir] is idempotent: once it has returned an oid for a path, a
    second [mkdir] of that path returns the same oid and changes
    nothing, logging no event. *)
Theorem mkdir_is_idempotent m new_id new_id' path m' made :
  mkdir new_id path m = (m', Ok made) ->
  mkdir new_id' path m' = (m', Ok made).
Proof.
  unfold mkdir at 1.
  destruct (_verify_parent_folder_exists m path) as [[]|e0] eqn:Hver; [|done].
  assert (Hnew :
    mkdir new_id' path
      (_register_event ACTION_CREATE (new_object new_id path MOCK_DIR)
         (_store_object new_id (new_object new_id path MOCK_DIR)
            (with_heap m (<[new_id := new_object new_id path MOCK_DIR]> (heap m)))))
    = (_register_event ACTION_CREATE (new_object new_id path MOCK_DIR)
         (_store_object new_id (new_object new_id path MOCK_DIR)
            (with_heap m (<[new_id := new_object new_id path MOCK_DIR]> (heap m)))),
       Ok (o_oid (new_object new_id path MOCK_DIR)))).
  { unfold mkdir. by rewrite verify_parent_after_mkdir, stored_new_found. }
  destruct (_get_by_path m path) as [[a o]|] eqn:Hg.
  - destruct (o_exists o) eqn:Hex.
    + destruct (o_type o) eqn:Hty; [done|]. intros [= <- <-].
      unfold mkdir. by rewrite Hver, Hg, Hex, Hty.
    + by intros [= <- <-].
  - by intros [= <- <-].
Qed.

Section WithHash.
Variable md5 : bytes -> bytes.

(** [create] is not: once it has succeeded on a path, a second
    [create] on that path raises [CloudFileExistsError] and changes
    nothing, whether or not the provider recycles oids. *)
Theorem create_twice_raises m new_id new_id' path content content' m' info :
  create md5 new_id path content m = (m', Ok info) ->
  create md5 new_id' path content' m' = (m', Raise CloudFileExistsError).
Proof.
  intros Hc.
  assert (Hlive : live (_get_by_path m' path) = true); [|by unfold create; rewrite Hlive].
  revert Hc. unfold create.
  destruct (live (_get_by_path m path)); [done|].
  destruct (_verify_parent_folder_exists m path) as [[]|e0]; [|done].
  set (fo := new_object new_id path MOCK_FILE).
  set (f := fun o => set_exists true (set_contents content o)).
  assert (Hnew : forall r,
    (let m2 := update_obj (_store_object new_id fo
                             (with_heap m (<[new_id := fo]> (heap m)))) new_id f in
     match heap m2 !! new_id with
     | Some o => (_register_event ACTION_CREATE o m2, to_oinfo md5 o)
     | None => (m2, Raise AttributeError)
     end) = (m', r) -> live (_get_by_path m' path) = true).
  { intros r. cbv zeta. simpl. rewrite lookup_alter_eq, lookup_insert_eq. simpl.
    intros [= <- _]. unfold _get_by_path, deref; simpl.
    rewrite Dict.get_set_eq. simpl. by rewrite lookup_alter_eq, lookup_insert_eq. }
  destruct (_get_by_path m path) as [[a o]|] eqn:Hg; [|by apply Hnew].
  destruct (_recycle_oid m); [|by apply Hnew].
  apply MockStore.deref_inv in Hg as [Hd Hh].
  simpl. rewrite lookup_alter_eq, Hh. simpl. intros [= <- _].
  unfold _get_by_path, deref; simpl. rewrite Hd. simpl.
  by rewrite lookup_alter_eq, Hh.
Qed.

(** A new provider whose sync root is its own parent (["/"]) holds the
    root directory, and the event of its creation has been read by the
    constructor: the first read of [events] yields nothing. *)
Theorem new_provider_has_root_and_no_events root_id sync_root recycle :
  dirname sync_root = sync_root ->
  info_path md5 (init root_id sync_root recycle) sync_root
    = Ok (Some (mkOInfo DIRECTORY (pretty root_id) None sync_root))
  /\ events_all (init root_id sync_root recycle)
     = (init root_id sync_root recycle, []).
Proof.
  intros Hroot.
  assert (Hm : mkdir root_id sync_root (empty sync_root recycle)
    = (_register_event ACTION_CREATE (new_object root_id sync_root MOCK_DIR)
         (_store_object root_id (new_object root_id sync_root MOCK_DIR)
            (with_heap (empty sync_root recycle)
               (<[root_id := new_object root_id sync_root MOCK_DIR]>
                  (heap (empty sync_root recycle))))),
       Ok (o_oid (new_object root_id sync_root MOCK_DIR)))).
  { unfold mkdir, _verify_parent_folder_exists. by rewrite decide_True. }
  pose proof (MockStore.wf_mkdir (empty sync_root recycle) root_id sync_root
                (MockStore.wf_empty _ _) (lookup_empty _)) as Hwf.
  unfold init. rewrite (MockStore.events_all_spec _ Hwf). cbn [fst].
  rewrite Hm in *. cbn [fst] in *. split.
  - unfold info_path, _get_by_path, deref; simpl.
    rewrite decide_True by done. simpl. by rewrite lookup_insert_eq.
  - apply MockStore.events_all_drained; [|done].
    apply MockStore.wf_with_cursor; [done|]. simpl. lia.
Qed.

End WithHash.

Lemma mkdir_is_idempotent_witness :
  mkdir 3 "/d" (mkdir 2 "/d" (init 1 "/" false)).1
  = ((mkdir 2 "/d" (init 1 "/" false)).1, Ok "2").
Proof.
  apply (mkdir_is_idempotent (init 1 "/" false) 2 3 "/d"). reflexivity.
Defined.

Lemma create_twice_raises_witness :
  create MockFacts.digest_stub 3 "/a.txt" [] MockStore.hello_store
  = (MockStore.hello_store, Raise CloudFileExistsError).
Proof.
  apply (create_twice_raises MockFacts.digest_stub (init 1 "/" false) 2 3
           "/a.txt" b_hello [] MockStore.hello_store
           (mkOInfo FILE "2" (Some b_hello) "/a.txt")).
  reflexivity.
Defined.

Lemma new_provider_has_root_and_no_events_witness :
  info_path MockFacts.digest_stub (init 1 "/" false) "/"
    = Ok (Some (mkOInfo DIRECTORY (pretty 1%N) None "/"))
  /\ events_all (init 1 "/" false) = (init 1 "/" false, []).
Proof.
  apply (new_provider_has_root_and_no_events MockFacts.digest_stub 1 "/" false).
  reflexivity.
Defined.

End MockRepeat.

(** * [GDriveProvider.info_oid] *)
Module InfoOidFacts.
Import GDrive.

Section Provider.
Context {W : Type}.
Variable api : DriveAPI W.

(** [info_oid]: the [ProviderInfo] is built from [info.oid], [info.hash]
    and the path, and dropped; the method has no [return].  [n] is the
    fuel of [_path_oid]. *)
Definition info_oid (n : nat) (oid : string) : M (option GDriveInfo) :=
  bind (_info_oid api oid) (fun info =>
  bind (_path_oid api n oid) (fun path =>
  match info with
  | None => raise AttributeError
  | Some _ => ret None
  end)).

Lemma info_oid_unknown w g oid :
  client g = true -> files_get api w oid = H404 ->
  _info_oid api oid (w, g) = Some ((w, g), Ok None).
Proof.
  intros Hc H404. unfold _info_oid, bind, or_none, _api, reading. by rewrite Hc, H404.
Qed.

(** [info_oid] gives no information: when it returns, it returns
    [None]; and for an oid that Drive does not know (404) it does not
    return [None] either but raises [AttributeError], leaving Drive and
    the provider as they were. *)
Theorem info_oid_gives_no_info n oid w g :
  (forall st' r, info_oid n oid (w, g) = Some (st', Ok r) -> r = None)
  /\ (client g = true -> files_get api w oid = H404 -> 0 < n ->
      info_oid n oid (w, g) = Some ((w, g), Raise AttributeError)).
Proof.
  split.
  - intros st' r H. unfold info_oid in H.
    apply GDriveFacts.bind_inv in H as [(st1 & info & _ & H)|(e & _ & ?)]; [|done].
    apply GDriveFacts.bind_inv in H as [(st2 & path & _ & H)|(e & _ & ?)]; [|done].
    destruct info; [|done]. by injection H as _ <-.
  - intros Hc H404 Hn. destruct n as [|n]; [lia|].
    unfold info_oid, bind at 1. rewrite (info_oid_unknown w g oid Hc H404).
    cbn [_path_oid]. unfold bind at 1 2, self. simpl.
    destruct (find_path (_ids g) oid); [done|].
    unfold bind at 1. by rewrite (info_oid_unknown w g oid Hc H404).
Qed.

End Provider.

(** On [RenameFacts.drive_with_folder]: the folder ["A"] is known and
    cached, and [info_oid] returns [None] for it; ["gone"] is unknown. *)
Lemma info_oid_gives_no_info_witness :
  info_oid TestDrive.api 1 "A" (RenameFacts.drive_with_folder, RenameFacts.resolved_folder)
    = Some ((RenameFacts.drive_with_folder, RenameFacts.resolved_folder), Ok None)
  /\ info_oid TestDrive.api 1 "gone"
       (RenameFacts.drive_with_folder, RenameFacts.resolved_folder)
     = Some ((RenameFacts.drive_with_folder, RenameFacts.resolved_folder),
             Raise AttributeError).
Proof.
  split; [vm_compute; reflexivity|].
  apply (proj2 (info_oid_gives_no_info TestDrive.api 1 "gone"
                  RenameFacts.drive_with_folder RenameFacts.resolved_folder));
    [reflexivity | reflexivity | lia].
Defined.

End InfoOidFacts.

(** * The Drive provider: [is_suboid] and the changes it lets through *)
Module SuboidFacts.
Import GDrive.

Section Provider.
Context {W : Type}.
Variable api : DriveAPI W.

Lemma split_without_separator s : rsplit s = None -> (split s).1 = s.
Proof. unfold split. by intros ->. Qed.

(** [is_suboid] hands the oid to [get_parent_id], which takes paths.
    An oid without a separator is its own parent there, so that the
    answer is looked up in the cache of paths: when the oid is not a key
    of that cache, the ascent ends at once. *)
Lemma get_parent_id_of_oid w g oid :
  rsplit oid = None -> Dict.get (_ids g) oid = None ->
  get_parent_id api (Some oid) (w, g) = Some ((w, g), Ok None).
Proof.
  intros Hsep Hkey. unfold get_parent_id, path_fuel.
  destruct oid as [|c p]; [done|].
  cbn [get_parent_id_fuel].
  rewrite decide_True by (by apply split_without_separator).
  unfold bind, self; simpl.
  rewrite (split_without_separator _ Hsep). by rewrite Hkey.
Qed.

(** For an oid without a separator that is not a key of the path
    cache, as the ids of Drive are, [is_suboid(top, oid)] is the test
    [top == oid]: it returns [False] for any other [top] without a
    request to Drive, wherever Drive holds the file. *)
Theorem is_suboid_never_asks_drive n top oid w g :
  rsplit oid = None -> Dict.get (_ids g) oid = None ->
  is_suboid api (S (S n)) top (Some oid) (w, g)
  = Some ((w, g), Ok (bool_decide (top = oid))).
Proof.
  intros Hsep Hkey. cbn [is_suboid].
  destruct (decide (Some top = Some oid)) as [[= ->]|Hne].
  { by rewrite bool_decide_true. }
  rewrite bool_decide_false by congruence.
  unfold bind at 1. rewrite (get_parent_id_of_oid w g oid Hsep Hkey).
  rewrite decide_False by done.
  rewrite decide_False by done. done.
Qed.

(** A change for a file that Drive no longer knows (404) and that the
    cache does not hold, as after a removal, is skipped by [events]: no
    path is found for it and [is_suboid] does not find it under the sync
    root.  Nothing is yielded for it, and Drive and the provider are as
    they were. *)
Theorem change_of_unknown_file_is_skipped n change top w g :
  client g = true ->
  files_get api w (ch_fileId change) = H404 ->
  find_path (_ids g) (ch_fileId change) = None ->
  rsplit (ch_fileId change) = None ->
  Dict.get (_ids g) (ch_fileId change) = None ->
  __sync_root_id g = Some top -> top <> "" -> top <> ch_fileId change ->
  process_change api (S (S n)) change (w, g) = Some ((w, g), Ok None).
Proof.
  intros Hc H404 Hf Hsep Hkey Htop Hne0 Hne.
  assert (Hp : _path_oid api (S (S n)) (ch_fileId change) (w, g)
               = Some ((w, g), Ok None)).
  { cbn [_path_oid]. rewrite (GDriveFacts.bind_ok self _ (w, g) (w, g) g eq_refl).
    cbn [snd]. rewrite Hf.
    by rewrite (GDriveFacts.bind_ok _ _ _ _ _ (InfoOidFacts.info_oid_unknown api w g _ Hc H404)). }
  assert (Hs : sync_root_id api (w, g) = Some ((w, g), Ok top)).
  { unfold sync_root_id. rewrite (GDriveFacts.bind_ok self _ (w, g) (w, g) g eq_refl).
    rewrite Htop. by destruct top. }
  assert (Hk : bind (sync_root_id api)
                 (fun top => is_suboid api (S (S n)) top (Some (ch_fileId change))) (w, g)
               = Some ((w, g), Ok false)).
  { rewrite (GDriveFacts.bind_ok _ _ _ _ _ Hs).
    rewrite (is_suboid_never_asks_drive n top _ w g Hsep Hkey).
    by rewrite bool_decide_false. }
  unfold process_change. cbv zeta.
  rewrite (GDriveFacts.bind_ok _ _ _ _ _ Hp).
  rewrite (GDriveFacts.bind_ok self _ (w, g) (w, g) g eq_refl).
  by rewrite (GDriveFacts.bind_ok _ _ _ _ _ Hk).
Qed.

End Provider.

(** Drive holds nothing; the provider is connected and knows its sync
    root ["S"]; the file ["F"] has been removed. *)
Definition watching : GDriveProvider :=
  with_sync_root_id TestDrive.connected (Some "S").

Lemma is_suboid_never_asks_drive_witness :
  is_suboid TestDrive.api 2 "S" (Some "F") (PathCacheFacts.empty_drive, watching)
  = Some ((PathCacheFacts.empty_drive, watching), Ok (bool_decide ("S" = "F"))).
Proof.
  apply (is_suboid_never_asks_drive TestDrive.api 0 "S" "F"); reflexivity.
Defined.

Lemma change_of_unknown_file_is_skipped_witness :
  process_change TestDrive.api 2 (mkChange "F" true None)
    (PathCacheFacts.empty_drive, watching)
  = Some ((PathCacheFacts.empty_drive, watching), Ok None).
Proof.
  apply (change_of_unknown_file_is_skipped TestDrive.api 0 (mkChange "F" true None) "S");
    (reflexivity || done).
Defined.

End SuboidFacts.
